(** * DHSVM soil column: vertical drainage and lateral-flow redistribution

    A shallow embedding of [UnsaturatedFlow.c] (functions [UnsaturatedFlow]
    and [DistributeSatflow]) and the properties of the soil-moisture
    bookkeeping they implement.

    Numbers.  The C code computes in [float].  Here every [float] is an
    exact rational ([Q]): rounding, infinities and NaN are not modelled, so
    the results below are statements about the algorithm in exact
    arithmetic.  Comparisons are the boolean tests of [QArith]; the test
    [x == 0.0] of the source is [Qeq_bool x 0].  Division by zero, which
    yields an infinity or a NaN in C, yields [0] in [Q]; the theorems that
    depend on a quotient assume its divisor is not zero.  Where rounding
    decides the outcome, as it does for the assertion that ends
    [DistributeSatflow], the routine is also given in single precision
    (module [Float32], over the binary32 numbers of [SpecFloat]) and run
    there.

    Arrays.  A C array is a [list Q].  Reading outside the list gives [0]
    and writing outside it does nothing (both are undefined behaviour in
    C); the theorems assume the lengths the source expects: [N] entries
    for the per-layer arrays, [N + 1] for [Adjust] and [Moist].

    Integers.  [NSoilLayers] counts layers and is a [nat]; [CutBankZone],
    [Dt] and [InfiltOption] are [int]s that may be negative and are in
    [Z].  With no layer at all the source reads index [-1] where the model
    reads index [0]; the theorems that depend on the lowest root layer
    assume that there is one. *)

From Stdlib Require Import QArith Qround Qabs Qpower Qfield Lqa ZArith List Lia Bool.
From Stdlib Require Import SpecFloat.
Import ListNotations.

Local Open Scope Q_scope.

(** ** Comparisons and arrays *)

Definition Qltb (a b : Q) : bool := negb (Qle_bool b a).
Definition Qleb (a b : Q) : bool := Qle_bool a b.
Definition Qeqb (a b : Q) : bool := Qeq_bool a b.

Infix "<?" := Qltb (at level 70, no associativity) : Q_scope.
Infix "<=?" := Qleb (at level 70, no associativity) : Q_scope.
Infix "=?" := Qeqb (at level 70, no associativity) : Q_scope.

Definition aget (a : list Q) (i : nat) : Q := nth i a 0.

Fixpoint aset (a : list Q) (i : nat) (v : Q) : list Q :=
  match a, i with
  | [], _ => []
  | _ :: t, O => v :: t
  | x :: t, S j => x :: aset t j v
  end.

(** [a[i] += v] *)
Definition aadd (a : list Q) (i : nat) (v : Q) : list Q :=
  aset a i (aget a i + v).

Notation "a .[ i ]" := (aget a i) (at level 1, format "a .[ i ]") : Q_scope.

(** ** The soil column *)

(** The read-only arguments that describe the column. [Adjust] has one more
    entry than the other arrays: index [NSoilLayers] is the layer below the
    deepest root layer. *)
Record Soil : Type := mkSoil {
  NSoilLayers : nat;
  TotalDepth : Q;
  RootDepth : list Q;
  Ks : list Q;
  PoreDist : list Q;
  Porosity : list Q;
  FCap : list Q;
  PercArea : list Q;
  Adjust : list Q
}.

(** What the two routines modify through pointers. [Moist] has
    [NSoilLayers + 1] entries. *)
Record Cell : Type := mkCell {
  Moist : list Q;
  Perc : list Q;
  TableDepth : Q;
  Runoff : Q
}.

(** [DeepLayerDepth = TotalDepth; for (i = 0; i < NSoilLayers; i++)
    DeepLayerDepth -= RootDepth[i];] *)
Definition DeepLayerDepth (s : Soil) : Q :=
  fold_left (fun d i => d - (RootDepth s).[i]) (seq 0 (NSoilLayers s)) (TotalDepth s).

(** Thickness times storage correction of layer [i]; the deep layer is
    [i = NSoilLayers]. *)
Definition Thickness (s : Soil) (i : nat) : Q :=
  if Nat.eqb i (NSoilLayers s) then DeepLayerDepth s * (Adjust s).[i]
  else (RootDepth s).[i] * (Adjust s).[i].

(** Water held by the layers [0], ..., [n - 1], in metres, and by the whole
    column: every root layer weighted by [RootDepth * Adjust], the deep
    layer by [DeepLayerDepth * Adjust[N]]. *)
Definition MoistureAbove (s : Soil) (m : list Q) (n : nat) : Q :=
  fold_left (fun acc i => acc + m.[i] * Thickness s i) (seq 0 n) 0.

Definition TotalMoisture (s : Soil) (m : list Q) : Q :=
  MoistureAbove s m (S (NSoilLayers s)).

Section UnsaturatedFlow.

(** [pow] of [math.h], the constant [DYNAMIC] of [settings.h] and the
    function [WaterTableDepth] are not part of this file of the source;
    they are parameters.  [WaterTableDepth] returns the table depth and
    the moisture profile it leaves behind (it modifies [Moist] in place). *)
Variable pow : Q -> Q -> Q.
Variable DYNAMIC : Z.
Variable WaterTableDepth :
  nat -> Q -> list Q -> list Q -> list Q -> list Q -> list Q -> Q * list Q.

(** *** Infiltration through the roadbed and through the surface *)

(** Lines 136-145. *)
Definition RoadbedStep (s : Soil) (RoadbedInfiltration : Q) (CutBankZone : Z)
    (BankHeight : Q) (c : Cell) : Cell :=
  let N := NSoilLayers s in
  if TableDepth c <=? BankHeight then
    mkCell (Moist c) (Perc c) (TableDepth c) (Runoff c + RoadbedInfiltration)
  else if (CutBankZone =? Z.of_nat N)%Z then
    mkCell (aadd (Moist c) N (RoadbedInfiltration / (DeepLayerDepth s * (Adjust s).[N])))
           (Perc c) (TableDepth c) (Runoff c)
  else if (CutBankZone >=? 0)%Z then
    let z := Z.to_nat CutBankZone in
    mkCell (aadd (Moist c) z (RoadbedInfiltration / ((RootDepth s).[z] * (Adjust s).[z])))
           (Perc c) (TableDepth c) (Runoff c)
  else c.

(** Lines 146-153. The second component is the local variable
    [Infiltration] after the step. *)
Definition SurfaceStep (s : Soil) (Infiltration : Q) (InfiltOption : Z)
    (c : Cell) : Cell * Q :=
  if TableDepth c <=? 0 then
    (mkCell (Moist c) (Perc c) (TableDepth c) (Runoff c + Infiltration),
     if (InfiltOption =? DYNAMIC)%Z then 0 else Infiltration)
  else
    (mkCell (aadd (Moist c) 0 (Infiltration / ((RootDepth s).[0] * (Adjust s).[0])))
            (Perc c) (TableDepth c) (Runoff c),
     Infiltration).

(** *** Drainage of one layer (body of the loop at lines 156-196) *)

(** Line 159-168: the drainage of the time step. *)
Definition Drainage (Dt : Z) (s : Soil) (i : nat) (m : list Q) : Q :=
  let Exponent := 2 / (PoreDist s).[i] + 3 in
  (if (Porosity s).[i] <? m.[i] then (Ks s).[i]
   else (Ks s).[i] * pow (m.[i] / (Porosity s).[i]) Exponent)
  * inject_Z Dt.

(** Line 169: average with the previous time step. *)
Definition PercAveraged (Dt : Z) (s : Soil) (i : nat) (m p : list Q) : Q :=
  (1 # 2) * (p.[i] + Drainage Dt s i m) * (PercArea s).[i].

Definition MaxSoilWater (s : Soil) (i : nat) : Q :=
  (RootDepth s).[i] * (Porosity s).[i] * (Adjust s).[i].
Definition SoilWater (s : Soil) (i : nat) (m : list Q) : Q :=
  (RootDepth s).[i] * m.[i] * (Adjust s).[i].
Definition FieldCapacity (s : Soil) (i : nat) : Q :=
  (RootDepth s).[i] * (FCap s).[i] * (Adjust s).[i].

(** Lines 176-177: no flow below field capacity. *)
Definition PercClamped (Dt : Z) (s : Soil) (i : nat) (m p : list Q) : Q :=
  let Perc_i := PercAveraged Dt s i m p in
  if SoilWater s i m - Perc_i <? FieldCapacity s i
  then SoilWater s i m - FieldCapacity s i
  else Perc_i.

(** Lines 182-184: what exceeds the porosity is added to the percolation. *)
Definition PercPushed (Dt : Z) (s : Soil) (i : nat) (m p : list Q) : Q :=
  let Perc_i := PercClamped Dt s i m p in
  let SoilWater' := SoilWater s i m - Perc_i in
  if MaxSoilWater s i <? SoilWater' then Perc_i + (SoilWater' - MaxSoilWater s i)
  else Perc_i.

(** One iteration of the loop over the layers, on the pair
    ([Moist], [Perc]). *)
Definition DrainLayer (Dt : Z) (s : Soil) (mp : list Q * list Q) (i : nat)
    : list Q * list Q :=
  let (m, p) := mp in
  if (FCap s).[i] <? m.[i] then
    let Perc_i := PercPushed Dt s i m p in
    let m1 := aadd m i (- (Perc_i / ((RootDepth s).[i] * (Adjust s).[i]))) in
    let m2 :=
      if (i <? NSoilLayers s - 1)%nat
      then aadd m1 (S i) (Perc_i / ((RootDepth s).[S i] * (Adjust s).[S i]))
      else m1 in
    (m2, aset p i (Perc_i / (PercArea s).[i]))
  else
    (m, aset p i (0 / (PercArea s).[i])).

(** [for (i = 0; i < NSoilLayers; i++)], stopped after [n] iterations. *)
Definition DrainLayers (Dt : Z) (s : Soil) (n : nat) (mp : list Q * list Q)
    : list Q * list Q :=
  fold_left (DrainLayer Dt s) (seq 0 n) mp.

(** Lines 156-200: the loop, then the drainage of the lowest root layer
    into the layer below it. *)
Definition DrainStep (Dt : Z) (s : Soil) (c : Cell) : Cell :=
  let N := NSoilLayers s in
  let (m, p) := DrainLayers Dt s N (Moist c, Perc c) in
  let DeepDrainage := p.[N - 1] * (PercArea s).[N - 1] in
  mkCell (aadd m N (DeepDrainage / (DeepLayerDepth s * (Adjust s).[N])))
         p (TableDepth c) (Runoff c).

(** Lines 207-208. *)
Definition TableStep (s : Soil) (c : Cell) : Cell :=
  let (d, m) := WaterTableDepth (NSoilLayers s) (TotalDepth s) (RootDepth s)
                  (Porosity s) (FCap s) (Adjust s) (Moist c) in
  mkCell m (Perc c) d (Runoff c).

(** Lines 210-219; the second component is the local [Infiltration]. *)
Definition PondingStep (InfiltOption : Z) (ci : Cell * Q) : Cell * Q :=
  let (c, Infiltration) := ci in
  if TableDepth c <? 0 then
    (mkCell (Moist c) (Perc c) 0 (Runoff c + - TableDepth c),
     if (InfiltOption =? DYNAMIC)%Z then
       if - TableDepth c <? Infiltration then Infiltration + TableDepth c else 0
     else Infiltration)
  else (c, Infiltration).

(** Lines 130-208: the cell and the local [Infiltration] when the function
    reaches the test of line 210. *)
Definition BeforePonding (Dt : Z) (DX DY Infiltration RoadbedInfiltration
    SatFlow : Q) (s : Soil) (Area : Q) (CutBankZone : Z) (BankHeight : Q)
    (c : Cell) (InfiltOption : Z) : Cell * Q :=
  let c1 := RoadbedStep s RoadbedInfiltration CutBankZone BankHeight c in
  let (c2, Infiltration') := SurfaceStep s Infiltration InfiltOption c1 in
  (TableStep s (DrainStep Dt s c2), Infiltration').

(** The call of [WaterTableDepth] on the cell [c] loses no water: [Moist]
    is the same array after the call, and what the call takes out of the
    layers is the water it reports as ponding, the negative table depth. *)
Definition TableStepConserves (s : Soil) (c : Cell) : Prop :=
  let c' := TableStep s c in
  length (Moist c') = length (Moist c)
  /\ TotalMoisture s (Moist c')
     + (if TableDepth c' <? 0 then - TableDepth c' else 0)
     == TotalMoisture s (Moist c).

(** The whole function, together with the final value of its local
    variable [Infiltration]. *)
Definition UnsaturatedFlow_locals (Dt : Z) (DX DY Infiltration RoadbedInfiltration
    SatFlow : Q) (s : Soil) (Area : Q) (CutBankZone : Z) (BankHeight : Q)
    (c : Cell) (InfiltOption : Z) : Cell * Q :=
  PondingStep InfiltOption
    (BeforePonding Dt DX DY Infiltration RoadbedInfiltration SatFlow s Area
       CutBankZone BankHeight c InfiltOption).

(** [void UnsaturatedFlow(...)]: what the caller sees. *)
Definition UnsaturatedFlow (Dt : Z) (DX DY Infiltration RoadbedInfiltration
    SatFlow : Q) (s : Soil) (Area : Q) (CutBankZone : Z) (BankHeight : Q)
    (c : Cell) (InfiltOption : Z) : Cell :=
  fst (UnsaturatedFlow_locals Dt DX DY Infiltration RoadbedInfiltration SatFlow
         s Area CutBankZone BankHeight c InfiltOption).

End UnsaturatedFlow.

(** ** Lateral flow: [DistributeSatflow] *)

(** *** Extraction ([SatFlow < 0]), from the top layer down *)

(** Lines 273-276: the depth of the bottom of layer [i], at most
    [TotalDepth]. *)
Definition NextDepth (s : Soil) (i : nat) (Depth : Q) : Q :=
  if (RootDepth s).[i] <? TotalDepth s - Depth then Depth + (RootDepth s).[i]
  else TotalDepth s.

(** Lines 271, 278-283: the water above field capacity in the part of
    layer [i] below the water table; [Depth] is the depth of its bottom. *)
Definition AvaWater (s : Soil) (TableDepth : Q) (i : nat) (Depth : Q) : Q :=
  if TableDepth <? Depth then
    if (RootDepth s).[i] <? Depth - TableDepth
    then ((Porosity s).[i] - (FCap s).[i]) * (RootDepth s).[i] * (Adjust s).[i]
    else ((Porosity s).[i] - (FCap s).[i]) * (Depth - TableDepth) * (Adjust s).[i]
  else 0.

(** Lines 295-304: the same for the deep layer, which takes the porosity
    and field capacity of the lowest root layer; [Depth] is the depth
    reached by the loop over the root layers. *)
Definition DeepAvaWater (s : Soil) (TableDepth : Q) (Depth : Q) : Q :=
  let N := NSoilLayers s in
  let DeepPorosity := (Porosity s).[N - 1] in
  let DeepFCap := (FCap s).[N - 1] in
  if Depth <? TotalDepth s then
    if DeepLayerDepth s <? TotalDepth s - TableDepth
    then (DeepPorosity - DeepFCap) * DeepLayerDepth s * (Adjust s).[N]
    else (DeepPorosity - DeepFCap) * (TotalDepth s - TableDepth) * (Adjust s).[N]
  else 0.

(** Line 285 and 306: [(-SatFlow > AvaWater) ? -AvaWater : SatFlow]. *)
Definition ExtracWater (SatFlow Ava : Q) : Q :=
  if Ava <? - SatFlow then - Ava else SatFlow.

(** The local variables the loops of [DistributeSatflow] carry. *)
Record Locals : Type := mkLocals {
  Depth : Q;
  SatFlow : Q;
  LMoist : list Q
}.

(** Lines 271-289, the body of the loop for layer [i]. *)
Definition ExtractLayer (s : Soil) (TableDepth : Q) (i : nat) (l : Locals) : Locals :=
  let Depth' := NextDepth s i (Depth l) in
  let E := ExtracWater (SatFlow l) (AvaWater s TableDepth i Depth') in
  mkLocals Depth' (SatFlow l - E)
           (aadd (LMoist l) i (E / ((RootDepth s).[i] * (Adjust s).[i]))).

(** Lines 270-292: [for (i = 0; i < NSoilLayers && Depth < TotalDepth; i++)]
    with its [break]; [n] is the number of layers left, [i] the current
    one. *)
Fixpoint ExtractLoop (s : Soil) (TableDepth : Q) (n i : nat) (l : Locals) : Locals :=
  match n with
  | O => l
  | S n' =>
    if Depth l <? TotalDepth s then
      let l' := ExtractLayer s TableDepth i l in
      if SatFlow l' =? 0 then l' else ExtractLoop s TableDepth n' (S i) l'
    else l
  end.

(** Lines 294-309. The assignment [Depth = TotalDepth] at line 298 is kept. *)
Definition ExtractDeep (s : Soil) (TableDepth : Q) (l : Locals) : Locals :=
  let N := NSoilLayers s in
  if SatFlow l <? 0 then
    let E := ExtracWater (SatFlow l) (DeepAvaWater s TableDepth (Depth l)) in
    mkLocals (if Depth l <? TotalDepth s then TotalDepth s else Depth l)
             (SatFlow l - E)
             (aadd (LMoist l) N (E / (DeepLayerDepth s * (Adjust s).[N])))
  else l.

(** Lines 268-310. *)
Definition Extract (s : Soil) (TableDepth : Q) (l : Locals) : Locals :=
  if SatFlow l <? 0 then
    ExtractDeep s TableDepth (ExtractLoop s TableDepth (NSoilLayers s) 0 l)
  else l.

(** *** Injection ([SatFlow > 0]), from the deep layer up *)

(** Lines 319 and 331: [(SatFlow > WaterGap) ? WaterGap : SatFlow]. *)
Definition FillWater (SatFlow Gap : Q) : Q :=
  if Gap <? SatFlow then Gap else SatFlow.

(** Lines 314-322.  The source reads
    [if (Depth > (TotalDepth - *TableDepth)); { ... }]: the [if] governs
    the empty statement that the semicolon ends, and the block after it is
    executed whatever the test gives.  The test is evaluated and its value
    is dropped. *)
Definition InjectDeep (s : Soil) (TableDepth : Q) (l : Locals) : Locals :=
  let N := NSoilLayers s in
  let DeepPorosity := (Porosity s).[N - 1] in
  let Depth' := Depth l + DeepLayerDepth s in
  let _ := TotalDepth s - TableDepth <? Depth' in (* the test of line 317 *)
  let DeepWaterGap :=
    (DeepPorosity - (LMoist l).[N]) * DeepLayerDepth s * (Adjust s).[N] in
  let E := FillWater (SatFlow l) DeepWaterGap in
  mkLocals Depth' (SatFlow l - E)
           (aadd (LMoist l) N (E / (DeepLayerDepth s * (Adjust s).[N]))).

(** Lines 326-334, the body of the loop for layer [i]; the test at line 329
    is followed by the same semicolon. *)
Definition InjectLayer (s : Soil) (TableDepth : Q) (i : nat) (l : Locals) : Locals :=
  let Depth' := Depth l + (RootDepth s).[i] in
  let _ := TotalDepth s - TableDepth <? Depth' in (* the test of line 329 *)
  let WaterGap :=
    ((Porosity s).[i] - (LMoist l).[i]) * (RootDepth s).[i] * (Adjust s).[i] in
  let E := FillWater (SatFlow l) WaterGap in
  mkLocals Depth' (SatFlow l - E)
           (aadd (LMoist l) i (E / ((RootDepth s).[i] * (Adjust s).[i]))).

(** Lines 325-337: [for (i = NSoilLayers - 1; i >= 0; i--)] with its
    [break]; [k] is [i + 1]. *)
Fixpoint InjectLoop (s : Soil) (TableDepth : Q) (k : nat) (l : Locals) : Locals :=
  match k with
  | O => l
  | S i =>
    let l' := InjectLayer s TableDepth i l in
    if SatFlow l' =? 0 then l' else InjectLoop s TableDepth i l'
  end.

(** Lines 312-339. *)
Definition Inject (s : Soil) (TableDepth : Q) (l : Locals) : Locals :=
  if 0 <? SatFlow l then
    let l1 := InjectDeep s TableDepth l in
    if 0 <? SatFlow l1 then InjectLoop s TableDepth (NSoilLayers s) l1 else l1
  else l.

(** Lines 267-339: the locals when the routine reaches its last two
    statements. *)
Definition Redistribute (SatFlow0 : Q) (s : Soil) (c : Cell) : Locals :=
  Inject s (TableDepth c) (Extract s (TableDepth c) (mkLocals 0 SatFlow0 (Moist c))).

(** The flow that is left when the routine reaches line 341. *)
Definition RemainingFlow (SatFlow0 : Q) (s : Soil) (c : Cell) : Q :=
  SatFlow (Redistribute SatFlow0 s c).

(** Lines 341-342: the cell after [if (SatFlow > 0.0) *Runoff += SatFlow;]. *)
Definition DistributeSatflow_cell (SatFlow0 : Q) (s : Soil) (c : Cell) : Cell :=
  let l := Redistribute SatFlow0 s c in
  mkCell (LMoist l) (Perc c) (TableDepth c)
         (if 0 <? SatFlow l then Runoff c + SatFlow l else Runoff c).

(** [void DistributeSatflow(...)]. [None] is the failure of
    [assert(SatFlow >= 0.0)], which ends the program. [Dt], [DX], [DY],
    [Ks], [Perc] and [PercArea] are not used by the source. *)
Definition DistributeSatflow (Dt : Z) (DX DY SatFlow0 : Q) (s : Soil) (c : Cell)
    : option Cell :=
  if 0 <=? RemainingFlow SatFlow0 s c
  then Some (DistributeSatflow_cell SatFlow0 s c)
  else None.

(** The available water the extraction would find on its way down if the
    demand were never met: layers [i], [i + 1], ... while [Depth] is above
    [TotalDepth], then the deep layer. *)
Fixpoint TotalAvaWater (s : Soil) (TableDepth : Q) (n i : nat) (Depth : Q) : Q :=
  match n with
  | O => DeepAvaWater s TableDepth Depth
  | S n' =>
    if Depth <? TotalDepth s then
      let Depth' := NextDepth s i Depth in
      AvaWater s TableDepth i Depth' + TotalAvaWater s TableDepth n' (S i) Depth'
    else DeepAvaWater s TableDepth Depth
  end.

(** The available water the loop of lines 270-292 computes in a run that
    starts from the locals [l]: one term for every layer the loop visits
    before it stops. *)
Fixpoint ExtractLoopAva (s : Soil) (TableDepth : Q) (n i : nat) (l : Locals) : Q :=
  match n with
  | O => 0
  | S n' =>
    if Depth l <? TotalDepth s then
      let l' := ExtractLayer s TableDepth i l in
      AvaWater s TableDepth i (Depth l')
      + (if SatFlow l' =? 0 then 0 else ExtractLoopAva s TableDepth n' (S i) l')
    else 0
  end.

(** The total available water a call computes: the layers the loop visits
    and, when the demand is still not met after them, the deep layer. *)
Definition AvaWaterComputed (SatFlow0 : Q) (s : Soil) (c : Cell) : Q :=
  let l0 := mkLocals 0 SatFlow0 (Moist c) in
  let l1 := ExtractLoop s (TableDepth c) (NSoilLayers s) 0 l0 in
  ExtractLoopAva s (TableDepth c) (NSoilLayers s) 0 l0
  + (if SatFlow l1 <? 0 then DeepAvaWater s (TableDepth c) (Depth l1) else 0).

(** What the loops of [DistributeSatflow] keep from the locals [l] to the
    locals [l']: the length of [Moist], and the water of the column plus the
    flow still to be placed. *)
Definition Balanced (s : Soil) (l l' : Locals) : Prop :=
  length (LMoist l') = length (LMoist l)
  /\ TotalMoisture s (LMoist l') + SatFlow l'
     == TotalMoisture s (LMoist l) + SatFlow l.

(** ** Reference instances of the parameters *)

(** Modelled from the spec: the water-table function ([WaterTableDepth] is
    called by the source but defined in another file).  The spec says that
    it "returns updated table depth and, as a side effect, caps any layer's
    moisture at its porosity, displacing surplus", that a negative depth is
    water ponding on the surface, and that the depth is the "distance below
    ground surface to the top of the saturated zone".  The model caps the
    deep layer, hands its surplus to the layer above, and so on up to the
    surface; what leaves the top layer is returned as a negative depth.
    Without surplus the depth is [TotalDepth] less the thickness of the
    layers that are full, counted from the bottom. *)
Fixpoint CapLayers (s : Soil) (k : nat) (Transfer : Q) (m : list Q) : Q * list Q :=
  match k with
  | O => (Transfer, m)
  | S i =>
    let Moist_i := m.[i] + Transfer / ((RootDepth s).[i] * (Adjust s).[i]) in
    if (Porosity s).[i] <=? Moist_i then
      CapLayers s i ((Moist_i - (Porosity s).[i]) * (RootDepth s).[i] * (Adjust s).[i])
                (aset m i (Porosity s).[i])
    else CapLayers s i 0 (aset m i Moist_i)
  end.

Fixpoint SaturatedAbove (s : Soil) (k : nat) (m : list Q) : Q :=
  match k with
  | O => 0
  | S i =>
    if (Porosity s).[i] <=? m.[i] then (RootDepth s).[i] + SaturatedAbove s i m else 0
  end.

Definition WaterTableDepth_model (NRootLayers : nat) (TotalDepth : Q)
    (RootDepth Porosity FCap Adjust Moist : list Q) : Q * list Q :=
  let s := mkSoil NRootLayers TotalDepth RootDepth [] [] Porosity FCap [] Adjust in
  let N := NRootLayers in
  let DeepPorosity := Porosity.[N - 1] in
  let deepfull := DeepPorosity <=? Moist.[N] in
  let Transfer :=
    if deepfull
    then (Moist.[N] - DeepPorosity) * DeepLayerDepth s * Adjust.[N] else 0 in
  let m1 := if deepfull then aset Moist N DeepPorosity else Moist in
  let (Surplus, m2) := CapLayers s N Transfer m1 in
  if 0 <? Surplus then (- Surplus, m2)
  else if deepfull then (TotalDepth - (DeepLayerDepth s + SaturatedAbove s N m2), m2)
  else (TotalDepth, m2).

(** Modelled from the spec: [pow] of the C library, on the exponents that
    are whole numbers, where it is a rational function; the exponent is
    rounded down. With [PoreDist = 1] or [2] the Brooks-Corey exponent
    [2 / PoreDist + 3] is [5] or [4]. *)
Definition pow_model (x e : Q) : Q := Qpower x (Qfloor e).

(** Modelled from the spec: the value of the constant [DYNAMIC], which the
    spec calls the "dynamic" infiltration-handling mode; any integer
    different from that of the standard mode will do. *)
Definition DYNAMIC_model : Z := 2.

(** The change of the water of the column and of the runoff from the cell
    [c] to the cell [c']. *)
Definition WaterGained (s : Soil) (c c' : Cell) : Q :=
  TotalMoisture s (Moist c') - TotalMoisture s (Moist c) + (Runoff c' - Runoff c).

(** The porosity the injection uses for layer [i]: the deep layer
    ([i = NSoilLayers]) takes that of the lowest root layer. *)
Definition LayerPorosity (s : Soil) (i : nat) : Q :=
  if Nat.eqb i (NSoilLayers s) then (Porosity s).[NSoilLayers s - 1]
  else (Porosity s).[i].

(** The depth of the bottom of root layer [i]. *)
Definition LayerBottom (s : Soil) (i : nat) : Q :=
  fold_left (fun d j => d + (RootDepth s).[j]) (seq 0 (S i)) 0.

(** The statement that an injection leaves alone every root layer that
    lies above the water table. *)
Definition InjectionSparesLayersAboveTable : Prop :=
  forall (Dt : Z) (DX DY F : Q) (s : Soil) (c c' : Cell) (i : nat),
    0 < F ->
    DistributeSatflow Dt DX DY F s c = Some c' ->
    (i < NSoilLayers s)%nat ->
    LayerBottom s i <= TableDepth c ->
    (Moist c').[i] == (Moist c).[i].

(** What one step of the injection does to the locals [l], on layer [i]
    ([i = NSoilLayers] is the deep layer): only that layer changes, it
    gains water up to its porosity at most, and if it is not full
    afterwards no flow is left. *)
Definition Filled (s : Soil) (i : nat) (l l' : Locals) : Prop :=
  length (LMoist l') = length (LMoist l)
  /\ (forall j : nat, j <> i -> (LMoist l').[j] = (LMoist l).[j])
  /\ (LMoist l).[i] <= (LMoist l').[i]
  /\ (LMoist l').[i] <= LayerPorosity s i
  /\ 0 <= SatFlow l'
  /\ ((LMoist l').[i] < LayerPorosity s i -> SatFlow l' == 0).

(** ** Columns used as examples *)

(** Two root layers of 0.5 m and 1 m in a column of 2 m, so the deep layer
    is 0.5 m thick; porosities 0.45 and 0.40, field capacities 0.20 and
    0.25, no loss of storage ([Adjust] is 1 everywhere). The arrays the
    lateral redistribution never reads are arguments. *)
Definition soil2 (Ks PoreDist PercArea : list Q) : Soil :=
  mkSoil 2 2 [1 # 2; 1] Ks PoreDist [45 # 100; 40 # 100] [20 # 100; 25 # 100]
         PercArea [1; 1; 1].

(** The same column with a conductivity of 1e-5 m/s, Brooks-Corey index 1
    and no loss of area. *)
Definition soil2K : Soil := soil2 [1 # 100000; 1 # 100000] [1; 1] [1; 1].

(** Every layer full, the table 0.3 m below the surface. *)
Definition cell_full : Cell :=
  mkCell [45 # 100; 40 # 100; 40 # 100] [0; 0] (3 # 10) 0.

(** Every layer at 0.3, the table 0.3 m below the surface. *)
Definition cell_moist : Cell :=
  mkCell [3 # 10; 3 # 10; 3 # 10] [0; 0] (3 # 10) 0.

(** The layers at field capacity or a little above, the deep layer not
    full, the table 1.8 m below the surface: in the deep layer, 0.3 m below
    the bottom of the root layers. *)
Definition cell_low_table : Cell :=
  mkCell [20 # 100; 25 # 100; 30 # 100] [0; 0] (18 # 10) 0.

(** [UnsaturatedFlow] with the reference instances of its parameters. *)
Definition UnsaturatedFlow_model : Z -> Q -> Q -> Q -> Q -> Q -> Soil -> Q -> Z -> Q
    -> Cell -> Z -> Cell :=
  UnsaturatedFlow pow_model DYNAMIC_model WaterTableDepth_model.

(** The cells [c1] and [c2] differ in the runoff only, where [c1] has [d]
    more. *)
Definition SameButRunoff (d : Q) (c1 c2 : Cell) : Prop :=
  Moist c1 = Moist c2 /\ Perc c1 = Perc c2 /\ TableDepth c1 = TableDepth c2
  /\ Runoff c1 == Runoff c2 + d.

(** The volume the array [Perc] records as leaving root layer [i], and as
    entering it from the layer above (nothing enters the top layer). *)
Definition PercOut (s : Soil) (p : list Q) (i : nat) : Q :=
  p.[i] * (PercArea s).[i].

Definition PercIn (s : Soil) (p : list Q) (i : nat) : Q :=
  match i with
  | O => 0
  | S j => PercOut s p j
  end.

(** The depth of the top of root layer [i]. *)
Definition LayerTop (s : Soil) (i : nat) : Q :=
  match i with
  | O => 0
  | S j => LayerBottom s j
  end.

(** The field capacity the extraction uses for layer [i]: the deep layer
    takes that of the lowest root layer. *)
Definition LayerFCap (s : Soil) (i : nat) : Q :=
  if Nat.eqb i (NSoilLayers s) then (FCap s).[NSoilLayers s - 1]
  else (FCap s).[i].

(** The water the column holds when every layer is at its porosity, and
    the room that is left in it. *)
Definition PoreVolume (s : Soil) : Q :=
  fold_left (fun acc i => acc + LayerPorosity s i * Thickness s i)
            (seq 0 (S (NSoilLayers s))) 0.

Definition FreePoreVolume (s : Soil) (m : list Q) : Q :=
  PoreVolume s - TotalMoisture s m.

(** The depth the extraction loop has reached when it has passed root
    layer [i], and when it comes to it. *)
Fixpoint ExtractDepth (s : Soil) (i : nat) : Q :=
  match i with
  | O => NextDepth s 0 0
  | S j => NextDepth s (S j) (ExtractDepth s j)
  end.

Definition ExtractDepthBefore (s : Soil) (i : nat) : Q :=
  match i with
  | O => 0
  | S j => ExtractDepth s j
  end.

(** ** [DistributeSatflow] in single precision

    The same routine with every [float] an IEEE 754 binary32 number and
    every operation rounded to nearest, ties to even, as a C compiler
    evaluates [float] expressions on a machine that computes them in single
    precision ([FLT_EVAL_METHOD] 0).  The routine has no product that is
    followed by a sum, so there is nothing a compiler could fuse.  It is
    used to run the routine on given numbers; the theorems above are about
    the exact model. *)

Declare Scope f32_scope.
Delimit Scope f32_scope with f32.

Module Float32.

Definition prec : Z := 24.
Definition emax : Z := 128.

Definition zero : spec_float := S754_zero false.

Infix "+" := (SFadd prec emax) : f32_scope.
Infix "-" := (SFsub prec emax) : f32_scope.
Infix "*" := (SFmul prec emax) : f32_scope.
Infix "/" := (SFdiv prec emax) : f32_scope.
Notation "- x" := (SFopp x) : f32_scope.
Infix "<?" := SFltb (at level 70, no associativity) : f32_scope.
Infix "<=?" := SFleb (at level 70, no associativity) : f32_scope.
Infix "=?" := SFeqb (at level 70, no associativity) : f32_scope.

Local Open Scope f32_scope.

(** The binary32 number nearest to the fraction [n / d] of two integers
    below 2^24: what the C literal with that decimal value denotes. *)
Definition lit (n : Z) (d : positive) : spec_float :=
  binary_normalize prec emax n 0 false / binary_normalize prec emax (Zpos d) 0 false.

(** The rational a finite binary32 number stands for. *)
Definition F2Q (x : spec_float) : Q :=
  match x with
  | S754_finite sg m e =>
      ((if sg then inject_Z (Zneg m) else inject_Z (Zpos m)) * (2 # 1) ^ e)%Q
  | _ => 0%Q
  end.

Definition aget (a : list spec_float) (i : nat) : spec_float := nth i a zero.

Fixpoint aset (a : list spec_float) (i : nat) (v : spec_float) : list spec_float :=
  match a, i with
  | [], _ => []
  | _ :: t, O => v :: t
  | x :: t, S j => x :: aset t j v
  end.

Definition aadd (a : list spec_float) (i : nat) (v : spec_float) : list spec_float :=
  aset a i (aget a i + v).

Notation "a .[ i ]" := (aget a i) (at level 1, format "a .[ i ]") : f32_scope.

Record Soil : Type := mkSoil {
  NSoilLayers : nat;
  TotalDepth : spec_float;
  RootDepth : list spec_float;
  Ks : list spec_float;
  Porosity : list spec_float;
  FCap : list spec_float;
  PercArea : list spec_float;
  Adjust : list spec_float
}.

Record Cell : Type := mkCell {
  Moist : list spec_float;
  Perc : list spec_float;
  TableDepth : spec_float;
  Runoff : spec_float
}.

Record Locals : Type := mkLocals {
  Depth : spec_float;
  SatFlow : spec_float;
  LMoist : list spec_float
}.

(** Lines 252-254. *)
Definition DeepLayerDepth (s : Soil) : spec_float :=
  fold_left (fun d i => d - (RootDepth s).[i]) (seq 0 (NSoilLayers s)) (TotalDepth s).

(** Lines 273-276. *)
Definition NextDepth (s : Soil) (i : nat) (Depth : spec_float) : spec_float :=
  if (RootDepth s).[i] <? TotalDepth s - Depth then Depth + (RootDepth s).[i]
  else TotalDepth s.

(** Lines 271, 278-283. *)
Definition AvaWater (s : Soil) (TableDepth : spec_float) (i : nat)
    (Depth : spec_float) : spec_float :=
  if TableDepth <? Depth then
    if (RootDepth s).[i] <? Depth - TableDepth
    then ((Porosity s).[i] - (FCap s).[i]) * (RootDepth s).[i] * (Adjust s).[i]
    else ((Porosity s).[i] - (FCap s).[i]) * (Depth - TableDepth) * (Adjust s).[i]
  else zero.

(** Lines 295-304. *)
Definition DeepAvaWater (s : Soil) (TableDepth : spec_float) (Depth : spec_float)
    : spec_float :=
  let N := NSoilLayers s in
  let DeepPorosity := (Porosity s).[N - 1] in
  let DeepFCap := (FCap s).[N - 1] in
  if Depth <? TotalDepth s then
    if DeepLayerDepth s <? TotalDepth s - TableDepth
    then (DeepPorosity - DeepFCap) * DeepLayerDepth s * (Adjust s).[N]
    else (DeepPorosity - DeepFCap) * (TotalDepth s - TableDepth) * (Adjust s).[N]
  else zero.

(** Lines 285 and 306. *)
Definition ExtracWater (SatFlow Ava : spec_float) : spec_float :=
  if Ava <? - SatFlow then - Ava else SatFlow.

(** Lines 271-289. *)
Definition ExtractLayer (s : Soil) (TableDepth : spec_float) (i : nat) (l : Locals)
    : Locals :=
  let Depth' := NextDepth s i (Depth l) in
  let E := ExtracWater (SatFlow l) (AvaWater s TableDepth i Depth') in
  mkLocals Depth' (SatFlow l - E)
           (aadd (LMoist l) i (E / ((RootDepth s).[i] * (Adjust s).[i]))).

(** Lines 270-292. *)
Fixpoint ExtractLoop (s : Soil) (TableDepth : spec_float) (n i : nat) (l : Locals)
    : Locals :=
  match n with
  | O => l
  | S n' =>
    if Depth l <? TotalDepth s then
      let l' := ExtractLayer s TableDepth i l in
      if SatFlow l' =? zero then l' else ExtractLoop s TableDepth n' (S i) l'
    else l
  end.

(** Lines 294-309. *)
Definition ExtractDeep (s : Soil) (TableDepth : spec_float) (l : Locals) : Locals :=
  let N := NSoilLayers s in
  if SatFlow l <? zero then
    let E := ExtracWater (SatFlow l) (DeepAvaWater s TableDepth (Depth l)) in
    mkLocals (if Depth l <? TotalDepth s then TotalDepth s else Depth l)
             (SatFlow l - E)
             (aadd (LMoist l) N (E / (DeepLayerDepth s * (Adjust s).[N])))
  else l.

(** Lines 268-310. *)
Definition Extract (s : Soil) (TableDepth : spec_float) (l : Locals) : Locals :=
  if SatFlow l <? zero then
    ExtractDeep s TableDepth (ExtractLoop s TableDepth (NSoilLayers s) 0 l)
  else l.

(** Lines 319 and 331. *)
Definition FillWater (SatFlow Gap : spec_float) : spec_float :=
  if Gap <? SatFlow then Gap else SatFlow.

(** Lines 314-322; the test of line 317 governs an empty statement. *)
Definition InjectDeep (s : Soil) (TableDepth : spec_float) (l : Locals) : Locals :=
  let N := NSoilLayers s in
  let DeepPorosity := (Porosity s).[N - 1] in
  let Depth' := Depth l + DeepLayerDepth s in
  let _ := TotalDepth s - TableDepth <? Depth' in
  let DeepWaterGap :=
    (DeepPorosity - (LMoist l).[N]) * DeepLayerDepth s * (Adjust s).[N] in
  let E := FillWater (SatFlow l) DeepWaterGap in
  mkLocals Depth' (SatFlow l - E)
           (aadd (LMoist l) N (E / (DeepLayerDepth s * (Adjust s).[N]))).

(** Lines 326-334; the test of line 329 governs an empty statement. *)
Definition InjectLayer (s : Soil) (TableDepth : spec_float) (i : nat) (l : Locals)
    : Locals :=
  let Depth' := Depth l + (RootDepth s).[i] in
  let _ := TotalDepth s - TableDepth <? Depth' in
  let WaterGap :=
    ((Porosity s).[i] - (LMoist l).[i]) * (RootDepth s).[i] * (Adjust s).[i] in
  let E := FillWater (SatFlow l) WaterGap in
  mkLocals Depth' (SatFlow l - E)
           (aadd (LMoist l) i (E / ((RootDepth s).[i] * (Adjust s).[i]))).

(** Lines 325-337. *)
Fixpoint InjectLoop (s : Soil) (TableDepth : spec_float) (k : nat) (l : Locals)
    : Locals :=
  match k with
  | O => l
  | S i =>
    let l' := InjectLayer s TableDepth i l in
    if SatFlow l' =? zero then l' else InjectLoop s TableDepth i l'
  end.

(** Lines 312-339. *)
Definition Inject (s : Soil) (TableDepth : spec_float) (l : Locals) : Locals :=
  if zero <? SatFlow l then
    let l1 := InjectDeep s TableDepth l in
    if zero <? SatFlow l1 then InjectLoop s TableDepth (NSoilLayers s) l1 else l1
  else l.

(** Lines 267-339. *)
Definition Redistribute (SatFlow0 : spec_float) (s : Soil) (c : Cell) : Locals :=
  Inject s (TableDepth c) (Extract s (TableDepth c) (mkLocals zero SatFlow0 (Moist c))).

Definition RemainingFlow (SatFlow0 : spec_float) (s : Soil) (c : Cell) : spec_float :=
  SatFlow (Redistribute SatFlow0 s c).

(** Lines 341-344. [None] is the failure of [assert(SatFlow >= 0.0)]. *)
Definition DistributeSatflow (SatFlow0 : spec_float) (s : Soil) (c : Cell)
    : option Cell :=
  let l := Redistribute SatFlow0 s c in
  if zero <=? SatFlow l then
    Some (mkCell (LMoist l) (Perc c) (TableDepth c)
            (if zero <? SatFlow l then Runoff c + SatFlow l else Runoff c))
  else None.

(** The available water of the layers the extraction passes on its way
    down when the demand is never met, the deep layer last, as the routine
    computes them. *)
Fixpoint AvaWaters (s : Soil) (TableDepth : spec_float) (n i : nat)
    (Depth : spec_float) : list spec_float :=
  match n with
  | O => [DeepAvaWater s TableDepth Depth]
  | S n' =>
    if Depth <? TotalDepth s then
      let Depth' := NextDepth s i Depth in
      AvaWater s TableDepth i Depth' :: AvaWaters s TableDepth n' (S i) Depth'
    else [DeepAvaWater s TableDepth Depth]
  end.

(** Their sum, without rounding and rounded after every addition. *)
Definition TotalAvaWater (s : Soil) (TableDepth : spec_float) : Q :=
  fold_left (fun acc a => (acc + F2Q a)%Q)
            (AvaWaters s TableDepth (NSoilLayers s) 0 zero) 0%Q.

Definition TotalAvaWater_rounded (s : Soil) (TableDepth : spec_float) : spec_float :=
  fold_left (fun acc a => acc + a)
            (AvaWaters s TableDepth (NSoilLayers s) 0 zero) zero.

(** Two root layers of 0.5 m and 1 m in a column of 2 m, porosities 0.5 and
    0.4, field capacities 0.1 and 0.2, [Adjust] 1, every layer full and the
    water table at the surface. *)
Definition soil_a : Soil :=
  mkSoil 2 (lit 2 1) [lit 1 2; lit 1 1] [zero; zero]
         [lit 5 10; lit 4 10] [lit 1 10; lit 2 10] [lit 1 1; lit 1 1]
         [lit 1 1; lit 1 1; lit 1 1].

Definition cell_a : Cell :=
  mkCell [lit 5 10; lit 4 10; lit 4 10] [zero; zero] zero zero.

End Float32.

(** ** Basic facts *)

Lemma Qltb_true (a b : Q) : (a <? b) = true <-> a < b.
Proof.
  unfold Qltb. rewrite negb_true_iff, <- not_true_iff_false, Qle_bool_iff.
  split; [apply Qnot_le_lt | apply Qlt_not_le].
Qed.

Lemma Qltb_false (a b : Q) : (a <? b) = false <-> b <= a.
Proof.
  unfold Qltb. rewrite negb_false_iff, Qle_bool_iff. reflexivity.
Qed.

Lemma Qleb_true (a b : Q) : (a <=? b) = true <-> a <= b.
Proof. apply Qle_bool_iff. Qed.

Lemma Qleb_false (a b : Q) : (a <=? b) = false <-> b < a.
Proof.
  unfold Qleb. rewrite <- not_true_iff_false, Qle_bool_iff.
  split; [apply Qnot_le_lt | apply Qlt_not_le].
Qed.

Lemma Qeqb_true (a b : Q) : (a =? b) = true <-> a == b.
Proof. apply Qeq_bool_iff. Qed.

Lemma Qeqb_false (a b : Q) : (a =? b) = false <-> ~ a == b.
Proof.
  unfold Qeqb. rewrite <- not_true_iff_false, Qeq_bool_iff. reflexivity.
Qed.

(** Case analysis on the tests of the source: every boolean comparison in
    the goal is destructed and turned into the order fact it decides. *)
Ltac qtest :=
  repeat match goal with
  | |- context [?a <? ?b] =>
      let H := fresh "Hlt" in
      destruct (a <? b) eqn:H;
      [apply Qltb_true in H | apply Qltb_false in H]
  | |- context [?a <=? ?b] =>
      let H := fresh "Hle" in
      destruct (a <=? b) eqn:H;
      [apply Qleb_true in H | apply Qleb_false in H]
  | |- context [?a =? ?b] =>
      let H := fresh "Heq" in
      destruct (a =? b) eqn:H;
      [apply Qeqb_true in H | apply Qeqb_false in H]
  end.

Lemma length_aset (a : list Q) (i : nat) (v : Q) : length (aset a i v) = length a.
Proof.
  revert i; induction a as [|x a IH]; intros [|i]; simpl; auto.
Qed.

Lemma length_aadd (a : list Q) (i : nat) (v : Q) : length (aadd a i v) = length a.
Proof. apply length_aset. Qed.

Lemma aget_aset_eq (a : list Q) (i : nat) (v : Q) :
  (i < length a)%nat -> (aset a i v).[i] = v.
Proof.
  revert i; induction a as [|x a IH]; intros [|i] H; simpl in *; try lia; auto.
  apply IH; lia.
Qed.

Lemma aget_aset_ne (a : list Q) (i j : nat) (v : Q) :
  i <> j -> (aset a i v).[j] = a.[j].
Proof.
  revert i j; induction a as [|x a IH]; intros [|i] [|j] H; simpl; auto; try lia.
  apply IH; lia.
Qed.

Lemma aget_aadd_eq (a : list Q) (i : nat) (v : Q) :
  (i < length a)%nat -> (aadd a i v).[i] = a.[i] + v.
Proof. apply aget_aset_eq. Qed.

Lemma aget_aadd_ne (a : list Q) (i j : nat) (v : Q) :
  i <> j -> (aadd a i v).[j] = a.[j].
Proof. apply aget_aset_ne. Qed.

Lemma aset_outside (a : list Q) (i : nat) (v : Q) :
  (length a <= i)%nat -> aset a i v = a.
Proof.
  revert i; induction a as [|x a IH]; intros [|i] H; simpl in *; try lia; auto.
  f_equal; apply IH; lia.
Qed.

Lemma cell_eta (c : Cell) : mkCell (Moist c) (Perc c) (TableDepth c) (Runoff c) = c.
Proof. destruct c; reflexivity. Qed.

(** ** [UnsaturatedFlow]: what does not reach the caller *)

Section UnsaturatedFlowFacts.

Variable pow : Q -> Q -> Q.
Variable DYNAMIC : Z.
Variable WaterTableDepth :
  nat -> Q -> list Q -> list Q -> list Q -> list Q -> list Q -> Q * list Q.

Lemma SurfaceStep_cell (s : Soil) (Infiltration : Q) (o1 o2 : Z) (c : Cell) :
  fst (SurfaceStep DYNAMIC s Infiltration o1 c)
  = fst (SurfaceStep DYNAMIC s Infiltration o2 c).
Proof. unfold SurfaceStep. destruct (TableDepth c <=? 0); reflexivity. Qed.

Lemma PondingStep_cell (o1 o2 : Z) (c : Cell) (I1 I2 : Q) :
  fst (PondingStep DYNAMIC o1 (c, I1)) = fst (PondingStep DYNAMIC o2 (c, I2)).
Proof. unfold PondingStep. destruct (TableDepth c <? 0); reflexivity. Qed.

Lemma BeforePonding_cell (Dt : Z) (DX DY Infiltration RoadbedInfiltration SatFlow : Q)
    (s : Soil) (Area : Q) (CutBankZone : Z) (BankHeight : Q) (c : Cell) (o1 o2 : Z) :
  fst (BeforePonding pow DYNAMIC WaterTableDepth Dt DX DY Infiltration
         RoadbedInfiltration SatFlow s Area CutBankZone BankHeight c o1)
  = fst (BeforePonding pow DYNAMIC WaterTableDepth Dt DX DY Infiltration
           RoadbedInfiltration SatFlow s Area CutBankZone BankHeight c o2).
Proof.
  unfold BeforePonding.
  pose proof (SurfaceStep_cell s Infiltration o1 o2
                (RoadbedStep s RoadbedInfiltration CutBankZone BankHeight c)) as E.
  destruct (SurfaceStep DYNAMIC s Infiltration o1 _) as [c1 I1].
  destruct (SurfaceStep DYNAMIC s Infiltration o2 _) as [c2 I2].
  simpl in *. subst c2. reflexivity.
Qed.

(** C9. The cell [UnsaturatedFlow] leaves behind ([Moist], [Perc],
    [TableDepth] and [Runoff]) is the same for every two values of
    [InfiltOption], [DYNAMIC] or not: the option only changes the local
    copy of [Infiltration], which is not read again. *)
Theorem UnsaturatedFlow_InfiltOption_irrelevant
    (Dt : Z) (DX DY Infiltration RoadbedInfiltration SatFlow : Q) (s : Soil)
    (Area : Q) (CutBankZone : Z) (BankHeight : Q) (c : Cell) (o1 o2 : Z) :
  UnsaturatedFlow pow DYNAMIC WaterTableDepth Dt DX DY Infiltration
    RoadbedInfiltration SatFlow s Area CutBankZone BankHeight c o1
  = UnsaturatedFlow pow DYNAMIC WaterTableDepth Dt DX DY Infiltration
      RoadbedInfiltration SatFlow s Area CutBankZone BankHeight c o2.
Proof.
  unfold UnsaturatedFlow, UnsaturatedFlow_locals.
  pose proof (BeforePonding_cell Dt DX DY Infiltration RoadbedInfiltration SatFlow
                s Area CutBankZone BankHeight c o1 o2) as E.
  destruct (BeforePonding _ _ _ Dt DX DY Infiltration RoadbedInfiltration SatFlow s
              Area CutBankZone BankHeight c o1) as [c1 I1].
  destruct (BeforePonding _ _ _ Dt DX DY Infiltration RoadbedInfiltration SatFlow s
              Area CutBankZone BankHeight c o2) as [c2 I2].
  simpl in E. subst c2. apply PondingStep_cell.
Qed.

(** The argument [SatFlow] is not used. *)
Lemma UnsaturatedFlow_SatFlow_unused
    (Dt : Z) (DX DY Infiltration RoadbedInfiltration F1 F2 : Q) (s : Soil)
    (Area : Q) (CutBankZone : Z) (BankHeight : Q) (c : Cell) (o : Z) :
  UnsaturatedFlow pow DYNAMIC WaterTableDepth Dt DX DY Infiltration
    RoadbedInfiltration F1 s Area CutBankZone BankHeight c o
  = UnsaturatedFlow pow DYNAMIC WaterTableDepth Dt DX DY Infiltration
      RoadbedInfiltration F2 s Area CutBankZone BankHeight c o.
Proof. reflexivity. Qed.

(** C10. With the water table below the cut ([TableDepth > BankHeight])
    and a negative [CutBankZone], the roadbed infiltration reaches neither
    a layer, nor the deep layer, nor the runoff: the roadbed step returns
    the cell as it got it, and the whole call gives the same cell as a call
    with any other roadbed infiltration, zero included. *)
Theorem roadbed_infiltration_dropped
    (Dt : Z) (DX DY Infiltration RoadbedInfiltration SatFlow : Q) (s : Soil)
    (Area : Q) (CutBankZone : Z) (BankHeight : Q) (c : Cell) (o : Z) :
  BankHeight < TableDepth c ->
  (CutBankZone < 0)%Z ->
  RoadbedStep s RoadbedInfiltration CutBankZone BankHeight c = c
  /\ forall R' : Q,
       UnsaturatedFlow pow DYNAMIC WaterTableDepth Dt DX DY Infiltration
         RoadbedInfiltration SatFlow s Area CutBankZone BankHeight c o
       = UnsaturatedFlow pow DYNAMIC WaterTableDepth Dt DX DY Infiltration R'
           SatFlow s Area CutBankZone BankHeight c o.
Proof.
  intros Hbank Hzone.
  assert (Hstep : forall R, RoadbedStep s R CutBankZone BankHeight c = c).
  { intros R. unfold RoadbedStep.
    apply Qleb_false in Hbank. rewrite Hbank.
    replace (CutBankZone =? Z.of_nat (NSoilLayers s))%Z with false
      by (symmetry; apply Z.eqb_neq; lia).
    replace (CutBankZone >=? 0)%Z with false
      by (symmetry; rewrite Z.geb_leb; apply Z.leb_gt; lia).
    reflexivity. }
  split; [apply Hstep|].
  intros R'. unfold UnsaturatedFlow, UnsaturatedFlow_locals, BeforePonding.
  rewrite !Hstep. reflexivity.
Qed.

End UnsaturatedFlowFacts.

(** ** [UnsaturatedFlow]: the water table on exit *)

Section TableDepthOnExit.

Variable pow : Q -> Q -> Q.
Variable DYNAMIC : Z.
Variable WaterTableDepth :
  nat -> Q -> list Q -> list Q -> list Q -> list Q -> list Q -> Q * list Q.

Lemma Runoff_DrainStep (Dt : Z) (s : Soil) (c : Cell) :
  Runoff (DrainStep pow Dt s c) = Runoff c.
Proof. unfold DrainStep. destruct (DrainLayers _ _ _ _ _); reflexivity. Qed.

Lemma Runoff_TableStep (s : Soil) (c : Cell) :
  Runoff (TableStep WaterTableDepth s c) = Runoff c.
Proof. unfold TableStep. destruct (WaterTableDepth _ _ _ _ _ _ _); reflexivity. Qed.

Lemma Runoff_BeforePonding_dry
    (Dt : Z) (DX DY Infiltration RoadbedInfiltration SatFlow : Q) (s : Soil)
    (Area : Q) (CutBankZone : Z) (BankHeight : Q) (c : Cell) (o : Z) :
  BankHeight < TableDepth c -> 0 < TableDepth c ->
  Runoff (fst (BeforePonding pow DYNAMIC WaterTableDepth Dt DX DY Infiltration
                 RoadbedInfiltration SatFlow s Area CutBankZone BankHeight c o))
  = Runoff c.
Proof.
  intros Hb H0. unfold BeforePonding.
  assert (E : TableDepth (RoadbedStep s RoadbedInfiltration CutBankZone BankHeight c)
              = TableDepth c
              /\ Runoff (RoadbedStep s RoadbedInfiltration CutBankZone BankHeight c)
              = Runoff c).
  { unfold RoadbedStep. apply Qleb_false in Hb. rewrite Hb.
    destruct (CutBankZone =? _)%Z; [split; reflexivity|].
    destruct (CutBankZone >=? 0)%Z; split; reflexivity. }
  destruct E as [E1 E2].
  unfold SurfaceStep. rewrite E1. apply Qleb_false in H0. rewrite H0.
  simpl. rewrite Runoff_TableStep, Runoff_DrainStep. simpl. exact E2.
Qed.

(** C5. On exit from [UnsaturatedFlow] the table depth is not negative.
    When the depth that [WaterTableDepth] returned is negative, the exit
    depth is 0 and the runoff is the runoff of that moment plus the
    absolute value of the returned depth; if moreover the table was below
    the cut and below the surface on entry (no infiltration went to the
    runoff), the runoff of the whole call grows by exactly that amount.
    When the returned depth is not negative the last step changes
    nothing. *)
Theorem table_depth_on_exit
    (Dt : Z) (DX DY Infiltration RoadbedInfiltration SatFlow : Q) (s : Soil)
    (Area : Q) (CutBankZone : Z) (BankHeight : Q) (c : Cell) (o : Z) :
  let c4 := fst (BeforePonding pow DYNAMIC WaterTableDepth Dt DX DY Infiltration
                   RoadbedInfiltration SatFlow s Area CutBankZone BankHeight c o) in
  let c' := UnsaturatedFlow pow DYNAMIC WaterTableDepth Dt DX DY Infiltration
              RoadbedInfiltration SatFlow s Area CutBankZone BankHeight c o in
  0 <= TableDepth c'
  /\ (TableDepth c4 < 0 ->
      TableDepth c' = 0
      /\ Runoff c' == Runoff c4 + Qabs (TableDepth c4)
      /\ (BankHeight < TableDepth c -> 0 < TableDepth c ->
          Runoff c' == Runoff c + Qabs (TableDepth c4)))
  /\ (0 <= TableDepth c4 -> c' = c4).
Proof.
  intros c4 c'.
  assert (Hc' : c' = fst (PondingStep DYNAMIC o (c4, snd (BeforePonding pow DYNAMIC
                 WaterTableDepth Dt DX DY Infiltration RoadbedInfiltration SatFlow
                 s Area CutBankZone BankHeight c o)))).
  { unfold c', c4, UnsaturatedFlow, UnsaturatedFlow_locals.
    destruct (BeforePonding _ _ _ _ _ _ _ _ _ _ _ _ _ _ _); reflexivity. }
  assert (Hdry : BankHeight < TableDepth c -> 0 < TableDepth c ->
                 Runoff c4 = Runoff c)
    by (apply Runoff_BeforePonding_dry).
  clearbody c4 c'. subst c'. unfold PondingStep.
  destruct (TableDepth c4 <? 0) eqn:Hneg;
    [apply Qltb_true in Hneg | apply Qltb_false in Hneg]; simpl.
  - split; [lra|]. split; [|intros; lra].
    intros _. split; [reflexivity|].
    assert (Habs : Qabs (TableDepth c4) == - TableDepth c4)
      by (apply Qabs_neg; lra).
    split; [rewrite Habs; reflexivity|].
    intros Hb H0. rewrite Habs, (Hdry Hb H0). reflexivity.
  - split; [exact Hneg|]. split; [intros; lra | reflexivity].
Qed.

End TableDepthOnExit.

(** ** [DistributeSatflow] without flow *)

Lemma DistributeSatflow_zero_flow_eq
    (Dt : Z) (DX DY F : Q) (s : Soil) (c : Cell) :
  F == 0 -> DistributeSatflow Dt DX DY F s c = Some c.
Proof.
  intros HF.
  assert (E : Redistribute F s c = mkLocals 0 F (Moist c)).
  { unfold Redistribute, Extract, Inject. simpl.
    replace (F <? 0) with false by (symmetry; apply Qltb_false; lra).
    simpl.
    replace (0 <? F) with false by (symmetry; apply Qltb_false; lra).
    reflexivity. }
  unfold DistributeSatflow, RemainingFlow, DistributeSatflow_cell.
  rewrite E. simpl.
  replace (0 <=? F) with true by (symmetry; apply Qleb_true; lra).
  replace (0 <? F) with false by (symmetry; apply Qltb_false; lra).
  rewrite cell_eta. reflexivity.
Qed.

(** C7. [DistributeSatflow] with a flow of zero returns normally (the
    assertion holds) and leaves the cell as it was: no entry of [Moist]
    and no runoff changes. *)
Theorem DistributeSatflow_zero_flow
    (Dt : Z) (DX DY F : Q) (s : Soil) (c : Cell) :
  F == 0 ->
  DistributeSatflow Dt DX DY F s c = Some c
  /\ forall c' : Cell,
       DistributeSatflow Dt DX DY F s c = Some c' ->
       Moist c' = Moist c /\ Runoff c' = Runoff c.
Proof.
  intros HF. rewrite (DistributeSatflow_zero_flow_eq Dt DX DY F s c HF).
  split; [reflexivity|]. intros c' [= <-]. split; reflexivity.
Qed.

(** ** The loop over the layers *)

Lemma aget_outside (a : list Q) (i : nat) : (length a <= i)%nat -> a.[i] = 0.
Proof. intros H. unfold aget. apply nth_overflow. exact H. Qed.

Lemma aget_aadd (a : list Q) (i : nat) (v : Q) :
  (aadd a i v).[i] = if (i <? length a)%nat then a.[i] + v else a.[i].
Proof.
  destruct (i <? length a)%nat eqn:H.
  - apply Nat.ltb_lt in H. apply aget_aadd_eq; exact H.
  - apply Nat.ltb_ge in H. unfold aadd. rewrite aset_outside by exact H. reflexivity.
Qed.

Section DrainLoop.

Variable pow : Q -> Q -> Q.
Variable Dt : Z.
Variable s : Soil.

Lemma DrainLayers_S (n : nat) (mp : list Q * list Q) :
  DrainLayers pow Dt s (S n) mp = DrainLayer pow Dt s (DrainLayers pow Dt s n mp) n.
Proof.
  unfold DrainLayers. rewrite seq_S, fold_left_app. reflexivity.
Qed.

Lemma DrainLayer_moist_frame (mp : list Q * list Q) (i j : nat) :
  j <> i -> j <> S i -> (fst (DrainLayer pow Dt s mp i)).[j] = (fst mp).[j].
Proof.
  intros H1 H2. destruct mp as [m p]. unfold DrainLayer.
  destruct ((FCap s).[i] <? m.[i]); [|reflexivity].
  destruct (i <? NSoilLayers s - 1)%nat; simpl.
  - rewrite !aget_aadd_ne by auto. reflexivity.
  - rewrite aget_aadd_ne by auto. reflexivity.
Qed.

Lemma DrainLayer_perc_frame (mp : list Q * list Q) (i j : nat) :
  j <> i -> (snd (DrainLayer pow Dt s mp i)).[j] = (snd mp).[j].
Proof.
  intros H. destruct mp as [m p]. unfold DrainLayer.
  destruct ((FCap s).[i] <? m.[i]); simpl; apply aget_aset_ne; auto.
Qed.

(** Iterations [i + 1], [i + 2], ... do not write [Moist[i]]. *)
Lemma DrainLayers_moist_settled (mp : list Q * list Q) (i n : nat) :
  (i < n)%nat ->
  (fst (DrainLayers pow Dt s n mp)).[i] = (fst (DrainLayers pow Dt s (S i) mp)).[i].
Proof.
  induction n as [|n IH]; intros H; [lia|].
  destruct (Nat.eq_dec i n) as [->|Hne]; [reflexivity|].
  rewrite DrainLayers_S, DrainLayer_moist_frame by lia.
  apply IH. lia.
Qed.

(** Iterations [0], ..., [n - 1] do not write [Perc[i]] for [i >= n]. *)
Lemma DrainLayers_perc_pending (mp : list Q * list Q) (i n : nat) :
  (n <= i)%nat -> (snd (DrainLayers pow Dt s n mp)).[i] = (snd mp).[i].
Proof.
  induction n as [|n IH]; intros H; [reflexivity|].
  rewrite DrainLayers_S, DrainLayer_perc_frame by lia.
  apply IH. lia.
Qed.

Lemma DrainLayers_perc_settled (mp : list Q * list Q) (i n : nat) :
  (i < n)%nat ->
  (snd (DrainLayers pow Dt s n mp)).[i] = (snd (DrainLayers pow Dt s (S i) mp)).[i].
Proof.
  induction n as [|n IH]; intros H; [lia|].
  destruct (Nat.eq_dec i n) as [->|Hne]; [reflexivity|].
  rewrite DrainLayers_S, DrainLayer_perc_frame by lia.
  apply IH. lia.
Qed.

(** What stays in the layer after the percolation has left. *)
Lemma PercPushed_leaves_field_capacity (i : nat) (m p : list Q) :
  0 < (RootDepth s).[i] -> 0 < (Adjust s).[i] ->
  (FCap s).[i] <= (Porosity s).[i] ->
  (FCap s).[i] < m.[i] ->
  FieldCapacity s i <= SoilWater s i m - PercPushed pow Dt s i m p.
Proof.
  intros HR HA HP HM.
  assert (HT : 0 < (RootDepth s).[i] * (Adjust s).[i]) by nra.
  unfold PercPushed, PercClamped.
  set (A := PercAveraged pow Dt s i m p).
  assert (HFS : FieldCapacity s i <= SoilWater s i m).
  { unfold FieldCapacity, SoilWater. nra. }
  assert (HFM : FieldCapacity s i <= MaxSoilWater s i).
  { unfold FieldCapacity, MaxSoilWater. nra. }
  qtest; lra.
Qed.

Lemma DrainLayer_floor (i : nat) (m p : list Q) :
  0 < (RootDepth s).[i] -> 0 < (Adjust s).[i] ->
  (FCap s).[i] <= (Porosity s).[i] ->
  (FCap s).[i] < m.[i] ->
  (FCap s).[i] <= (fst (DrainLayer pow Dt s (m, p) i)).[i].
Proof.
  intros HR HA HP HM.
  pose proof (PercPushed_leaves_field_capacity i m p HR HA HP HM) as HF.
  unfold DrainLayer. apply Qltb_true in HM. rewrite HM. apply Qltb_true in HM.
  cbv zeta. set (P := PercPushed pow Dt s i m p) in *.
  assert (E : forall m2 : list Q,
             (if (i <? NSoilLayers s - 1)%nat
              then aadd m2 (S i) (P / ((RootDepth s).[S i] * (Adjust s).[S i]))
              else m2).[i] = m2.[i]).
  { intros m2. destruct (i <? NSoilLayers s - 1)%nat; [|reflexivity].
    apply aget_aadd_ne. lia. }
  simpl fst. rewrite E, aget_aadd.
  destruct (i <? length m)%nat; [|lra].
  assert (HT : 0 < (RootDepth s).[i] * (Adjust s).[i]) by nra.
  assert (Hq : P / ((RootDepth s).[i] * (Adjust s).[i])
               * ((RootDepth s).[i] * (Adjust s).[i]) == P)
    by (field; lra).
  set (q := P / ((RootDepth s).[i] * (Adjust s).[i])) in *.
  unfold FieldCapacity, SoilWater in HF.
  nra.
Qed.

(** C4. A layer [i] that drains (its moisture exceeds the field capacity
    when the loop reaches it) holds at least its field capacity after its
    iteration, at every later point of the loop and when the drainage to
    the deep layer has been added (line 200), provided the porosity is at
    least the field capacity and [RootDepth[i]] and [Adjust[i]] are
    positive. *)
Theorem drained_layer_keeps_field_capacity (mp : list Q * list Q) (i : nat) :
  (i < NSoilLayers s)%nat ->
  (FCap s).[i] <= (Porosity s).[i] ->
  0 < (Adjust s).[i] ->
  0 < (RootDepth s).[i] ->
  (FCap s).[i] < (fst (DrainLayers pow Dt s i mp)).[i] ->
  (forall n : nat, (i < n)%nat ->
     (FCap s).[i] <= (fst (DrainLayers pow Dt s n mp)).[i])
  /\ (forall c : Cell, mp = (Moist c, Perc c) ->
        (FCap s).[i] <= (Moist (DrainStep pow Dt s c)).[i]).
Proof.
  intros Hi HP HA HR HM.
  assert (Hloop : forall n : nat, (i < n)%nat ->
            (FCap s).[i] <= (fst (DrainLayers pow Dt s n mp)).[i]).
  { intros n Hn. rewrite (DrainLayers_moist_settled mp i n Hn), DrainLayers_S.
    destruct (DrainLayers pow Dt s i mp) as [m p].
    apply DrainLayer_floor; assumption. }
  split; [exact Hloop|].
  intros c ->. unfold DrainStep.
  specialize (Hloop (NSoilLayers s) Hi).
  destruct (DrainLayers pow Dt s (NSoilLayers s) (Moist c, Perc c)) as [m p].
  simpl in *. rewrite aget_aadd_ne by lia. exact Hloop.
Qed.

(** *** The sign of the percolation *)

Section PercSign.

Hypothesis pow_nonneg : forall x e : Q, 0 <= x -> 0 <= pow x e.
Hypothesis Dt_nonneg : (0 <= Dt)%Z.

Variable i : nat.
Hypothesis Ks_nonneg : 0 <= (Ks s).[i].
Hypothesis PercArea_pos : 0 < (PercArea s).[i].
Hypothesis FCap_le_Porosity : (FCap s).[i] <= (Porosity s).[i].
Hypothesis FCap_nonneg : 0 <= (FCap s).[i].
Hypothesis Thickness_nonneg : 0 <= (RootDepth s).[i] * (Adjust s).[i].

Lemma Drainage_nonneg (m : list Q) : (FCap s).[i] < m.[i] -> 0 <= Drainage pow Dt s i m.
Proof.
  intros HM. unfold Drainage.
  assert (HD : 0 <= inject_Z Dt) by (unfold Qle; simpl; lia).
  apply Qmult_le_0_compat; [|exact HD].
  qtest; [exact Ks_nonneg|].
  apply Qmult_le_0_compat; [exact Ks_nonneg|].
  apply pow_nonneg. apply Qmult_le_0_compat; [lra|].
  apply Qinv_le_0_compat. lra.
Qed.

Lemma PercAveraged_nonneg (m p : list Q) :
  0 <= p.[i] -> (FCap s).[i] < m.[i] -> 0 <= PercAveraged pow Dt s i m p.
Proof.
  intros Hp HM. pose proof (Drainage_nonneg m HM) as HD.
  unfold PercAveraged. apply Qmult_le_0_compat; [|lra].
  apply Qmult_le_0_compat; lra.
Qed.

Lemma PercClamped_nonneg (m p : list Q) :
  0 <= p.[i] -> (FCap s).[i] < m.[i] -> 0 <= PercClamped pow Dt s i m p.
Proof.
  intros Hp HM. pose proof (PercAveraged_nonneg m p Hp HM) as HA.
  unfold PercClamped. cbv zeta. qtest; [|exact HA].
  unfold SoilWater, FieldCapacity.
  set (T := (RootDepth s).[i] * (Adjust s).[i]) in *.
  assert (E : (RootDepth s).[i] * m.[i] * (Adjust s).[i]
              - (RootDepth s).[i] * (FCap s).[i] * (Adjust s).[i]
              == T * (m.[i] - (FCap s).[i])) by (unfold T; ring).
  rewrite E. apply Qmult_le_0_compat; lra.
Qed.

Lemma PercPushed_nonneg (m p : list Q) :
  0 <= p.[i] -> (FCap s).[i] < m.[i] -> 0 <= PercPushed pow Dt s i m p.
Proof.
  intros Hp HM. pose proof (PercClamped_nonneg m p Hp HM) as HC.
  unfold PercPushed. cbv zeta. qtest; lra.
Qed.

(** The value stored in [Perc[i]] by iteration [i] (line 195). *)
Lemma DrainLayer_perc_nonneg (m p : list Q) :
  0 <= p.[i] -> 0 <= (snd (DrainLayer pow Dt s (m, p) i)).[i].
Proof.
  intros Hp. unfold DrainLayer.
  assert (Hdiv : forall x : Q, 0 <= x -> 0 <= x / (PercArea s).[i]).
  { intros x Hx. apply Qmult_le_0_compat; [exact Hx|].
    apply Qinv_le_0_compat. lra. }
  destruct ((FCap s).[i] <? m.[i]) eqn:HM; simpl.
  - apply Qltb_true in HM.
    destruct (Nat.lt_ge_cases i (length p)) as [Hl|Hl].
    + rewrite aget_aset_eq by exact Hl. apply Hdiv, PercPushed_nonneg; assumption.
    + rewrite aset_outside by exact Hl. exact Hp.
  - destruct (Nat.lt_ge_cases i (length p)) as [Hl|Hl].
    + rewrite aget_aset_eq by exact Hl. apply Hdiv. lra.
    + rewrite aset_outside by exact Hl. exact Hp.
Qed.

End PercSign.

End DrainLoop.

Section PercInvariant.

Variable pow : Q -> Q -> Q.
Variable DYNAMIC : Z.
Variable WaterTableDepth :
  nat -> Q -> list Q -> list Q -> list Q -> list Q -> list Q -> Q * list Q.

Lemma Perc_RoadbedStep (s : Soil) (R : Q) (z : Z) (b : Q) (c : Cell) :
  Perc (RoadbedStep s R z b c) = Perc c.
Proof.
  unfold RoadbedStep.
  destruct (TableDepth c <=? b); [reflexivity|].
  destruct (z =? _)%Z; [reflexivity|].
  destruct (z >=? 0)%Z; reflexivity.
Qed.

Lemma Perc_SurfaceStep (s : Soil) (I : Q) (o : Z) (c : Cell) :
  Perc (fst (SurfaceStep DYNAMIC s I o c)) = Perc c.
Proof. unfold SurfaceStep. destruct (TableDepth c <=? 0); reflexivity. Qed.

(** The array [Perc] on exit is the one the loop over the layers leaves. *)
Lemma Perc_UnsaturatedFlow
    (Dt : Z) (DX DY Infiltration RoadbedInfiltration SatFlow : Q) (s : Soil)
    (Area : Q) (CutBankZone : Z) (BankHeight : Q) (c : Cell) (o : Z) :
  Perc (UnsaturatedFlow pow DYNAMIC WaterTableDepth Dt DX DY Infiltration
          RoadbedInfiltration SatFlow s Area CutBankZone BankHeight c o)
  = snd (DrainLayers pow Dt s (NSoilLayers s)
           (Moist (fst (SurfaceStep DYNAMIC s Infiltration o
                          (RoadbedStep s RoadbedInfiltration CutBankZone BankHeight c))),
            Perc c)).
Proof.
  unfold UnsaturatedFlow, UnsaturatedFlow_locals, BeforePonding.
  pose proof (Perc_SurfaceStep s Infiltration o
                (RoadbedStep s RoadbedInfiltration CutBankZone BankHeight c)) as E.
  rewrite Perc_RoadbedStep in E.
  destruct (SurfaceStep DYNAMIC s Infiltration o _) as [c2 I2]. simpl in E.
  unfold PondingStep, TableStep, DrainStep. cbv zeta. cbn [fst]. rewrite <- E.
  destruct (DrainLayers pow Dt s (NSoilLayers s) (Moist c2, Perc c2)) as [m p].
  simpl Moist.
  destruct (WaterTableDepth _ _ _ _ _ _ _) as [d m']. simpl.
  destruct (d <? 0); reflexivity.
Qed.

(** C6, as it holds.  [Perc[i]] is never negative while [UnsaturatedFlow]
    runs: if on entry [Perc[i] >= 0], and [Ks[i] >= 0], [PercArea[i] > 0]
    and the porosity is at least the field capacity, and if moreover the
    time step,
    the field capacity and [RootDepth[i] * Adjust[i]] are not negative (and
    [pow] is not negative on a base that is not), then in a layer that
    drains the averaged, the clamped and the pushed-through values are not
    negative, and the stored [Perc[i]] is not negative at any point of the
    loop (before iteration [i] the entry value, after it the flux per unit
    area, or zero for a layer at or below field capacity) nor on exit. *)
Theorem Perc_never_negative
    (Dt : Z) (DX DY Infiltration RoadbedInfiltration SatFlow : Q) (s : Soil)
    (Area : Q) (CutBankZone : Z) (BankHeight : Q) (c : Cell) (o : Z) :
  (forall x e : Q, 0 <= x -> 0 <= pow x e) ->
  (0 <= Dt)%Z ->
  (forall i : nat, (i < NSoilLayers s)%nat ->
     0 <= (Perc c).[i] /\ 0 <= (Ks s).[i] /\ 0 < (PercArea s).[i]
     /\ (FCap s).[i] <= (Porosity s).[i]
     /\ 0 <= (FCap s).[i] /\ 0 <= (RootDepth s).[i] * (Adjust s).[i]) ->
  let mp0 := (Moist (fst (SurfaceStep DYNAMIC s Infiltration o
                            (RoadbedStep s RoadbedInfiltration CutBankZone
                               BankHeight c))),
              Perc c) in
  forall i : nat, (i < NSoilLayers s)%nat ->
    (forall m p : list Q, DrainLayers pow Dt s i mp0 = (m, p) ->
       (FCap s).[i] < m.[i] ->
       0 <= PercAveraged pow Dt s i m p
       /\ 0 <= PercClamped pow Dt s i m p
       /\ 0 <= PercPushed pow Dt s i m p)
    /\ (forall n : nat, 0 <= (snd (DrainLayers pow Dt s n mp0)).[i])
    /\ 0 <= (Perc (UnsaturatedFlow pow DYNAMIC WaterTableDepth Dt DX DY
                     Infiltration RoadbedInfiltration SatFlow s Area CutBankZone
                     BankHeight c o)).[i].
Proof.
  intros Hpow HDt Hwf mp0 i Hi.
  destruct (Hwf i Hi) as (Hp & HK & HA & HPF & HF & HT).
  assert (Hentry : (snd (DrainLayers pow Dt s i mp0)).[i] = (Perc c).[i])
    by (rewrite DrainLayers_perc_pending by lia; reflexivity).
  assert (Hall : forall n : nat, 0 <= (snd (DrainLayers pow Dt s n mp0)).[i]).
  { intros n. destruct (Nat.lt_ge_cases i n) as [Hn|Hn].
    - rewrite (DrainLayers_perc_settled pow Dt s mp0 i n Hn), DrainLayers_S.
      destruct (DrainLayers pow Dt s i mp0) as [m p]. simpl in Hentry.
      apply DrainLayer_perc_nonneg; try assumption. rewrite Hentry. exact Hp.
    - rewrite DrainLayers_perc_pending by exact Hn. exact Hp. }
  split; [|split; [exact Hall|]].
  - intros m p E HM. rewrite E in Hentry. simpl in Hentry.
    rewrite <- Hentry in Hp.
    split; [|split].
    + apply PercAveraged_nonneg; assumption.
    + apply PercClamped_nonneg; assumption.
    + apply PercPushed_nonneg; assumption.
  - rewrite Perc_UnsaturatedFlow. apply Hall.
Qed.

End PercInvariant.

(** ** [DistributeSatflow]: the flow that is left *)

Section RemainingFlow.

Variable s : Soil.
Variable TD : Q.

Lemma ExtracWater_cases (f A : Q) :
  f < 0 ->
  (A < - f /\ f - ExtracWater f A == f + A /\ f - ExtracWater f A < 0)
  \/ (- f <= A /\ f - ExtracWater f A == 0).
Proof.
  intros Hf. unfold ExtracWater. qtest; [left | right]; repeat split; lra.
Qed.

(** After the loop either the demand is still open, reduced by what the
    layers made available, or it has been met exactly. *)
Lemma ExtractLoop_S (n i : nat) (l : Locals) :
  ExtractLoop s TD (S n) i l
  = if Depth l <? TotalDepth s then
      if SatFlow (ExtractLayer s TD i l) =? 0 then ExtractLayer s TD i l
      else ExtractLoop s TD n (S i) (ExtractLayer s TD i l)
    else l.
Proof. reflexivity. Qed.

Lemma ExtractLoopAva_S (n i : nat) (l : Locals) :
  ExtractLoopAva s TD (S n) i l
  = if Depth l <? TotalDepth s then
      AvaWater s TD i (Depth (ExtractLayer s TD i l))
      + (if SatFlow (ExtractLayer s TD i l) =? 0 then 0
         else ExtractLoopAva s TD n (S i) (ExtractLayer s TD i l))
    else 0.
Proof. reflexivity. Qed.

Lemma ExtractLayer_flow (i : nat) (l : Locals) :
  SatFlow l < 0 ->
  let A := AvaWater s TD i (Depth (ExtractLayer s TD i l)) in
  (A < - SatFlow l /\ SatFlow (ExtractLayer s TD i l) == SatFlow l + A
   /\ SatFlow (ExtractLayer s TD i l) < 0)
  \/ (- SatFlow l <= A /\ SatFlow (ExtractLayer s TD i l) == 0).
Proof. intros Hf. simpl. apply ExtracWater_cases. exact Hf. Qed.

Lemma ExtractLoop_flow (n i : nat) (l : Locals) :
  SatFlow l < 0 ->
  let l1 := ExtractLoop s TD n i l in
  (SatFlow l1 < 0 /\ SatFlow l1 == SatFlow l + ExtractLoopAva s TD n i l)
  \/ (SatFlow l1 == 0 /\ - SatFlow l <= ExtractLoopAva s TD n i l).
Proof.
  revert i l. induction n as [|n IH]; intros i l Hf.
  - left. simpl. split; [exact Hf | ring].
  - cbv zeta. rewrite ExtractLoop_S, ExtractLoopAva_S.
    destruct (Depth l <? TotalDepth s); [|left; split; [exact Hf | ring]].
    destruct (ExtractLayer_flow i l Hf) as [(HA & HE & HN)|(HA & HE)].
    + replace (SatFlow (ExtractLayer s TD i l) =? 0) with false
        by (symmetry; apply Qeqb_false; lra).
      destruct (IH (S i) _ HN) as [[H1 H2]|[H1 H2]];
        [left | right]; (split; [exact H1 | lra]).
    + replace (SatFlow (ExtractLayer s TD i l) =? 0) with true
        by (symmetry; apply Qeqb_true; exact HE).
      right. split; [exact HE | lra].
Qed.

Lemma ExtractDeep_flow (l : Locals) :
  SatFlow l <= 0 ->
  let l2 := ExtractDeep s TD l in
  SatFlow l2 <= 0
  /\ (SatFlow l2 < 0 <->
      SatFlow l < 0 /\ DeepAvaWater s TD (Depth l) < - SatFlow l).
Proof.
  intros Hf. unfold ExtractDeep. cbv zeta.
  destruct (SatFlow l <? 0) eqn:Hneg;
    [apply Qltb_true in Hneg | apply Qltb_false in Hneg].
  - simpl.
    destruct (ExtracWater_cases (SatFlow l) (DeepAvaWater s TD (Depth l)) Hneg)
      as [(HA & HE & HN)|(HA & HE)].
    + split; [lra|]. split; intros; [split; assumption | exact HN].
    + split; [lra|]. split; [intros; lra | intros [_ H]; lra].
  - split; [exact Hf|]. split; [intros; lra | intros [H _]; lra].
Qed.

Lemma Inject_idle (l : Locals) : SatFlow l <= 0 -> Inject s TD l = l.
Proof.
  intros H. unfold Inject. apply Qltb_false in H. rewrite H. reflexivity.
Qed.

Lemma FillWater_cases (f g : Q) :
  (g < f /\ FillWater f g = g) \/ (f <= g /\ FillWater f g = f).
Proof. unfold FillWater. qtest; [left | right]; split; auto. Qed.

Lemma InjectLayer_flow (i : nat) (l : Locals) :
  0 <= SatFlow l -> 0 <= SatFlow (InjectLayer s TD i l).
Proof.
  intros H. unfold InjectLayer. simpl.
  destruct (FillWater_cases (SatFlow l)
              (((Porosity s).[i] - (LMoist l).[i]) * (RootDepth s).[i] * (Adjust s).[i]))
    as [[Hc ->]|[Hc ->]]; lra.
Qed.

Lemma InjectLoop_S (k : nat) (l : Locals) :
  InjectLoop s TD (S k) l
  = if SatFlow (InjectLayer s TD k l) =? 0 then InjectLayer s TD k l
    else InjectLoop s TD k (InjectLayer s TD k l).
Proof. reflexivity. Qed.

Lemma InjectLoop_flow (k : nat) (l : Locals) :
  0 <= SatFlow l -> 0 <= SatFlow (InjectLoop s TD k l).
Proof.
  revert l. induction k as [|k IH]; intros l H; [exact H|].
  rewrite InjectLoop_S.
  pose proof (InjectLayer_flow k l H) as H'.
  destruct (SatFlow (InjectLayer s TD k l) =? 0); [exact H' | apply IH, H'].
Qed.

Lemma Inject_flow (l : Locals) : 0 <= SatFlow l -> 0 <= SatFlow (Inject s TD l).
Proof.
  intros H. unfold Inject.
  destruct (0 <? SatFlow l); [|exact H].
  assert (H1 : 0 <= SatFlow (InjectDeep s TD l)).
  { unfold InjectDeep. simpl.
    match goal with |- context [FillWater ?f ?g] =>
      destruct (FillWater_cases f g) as [[Hc ->]|[Hc ->]]; lra
    end. }
  cbv zeta. destruct (0 <? SatFlow (InjectDeep s TD l)); [|exact H1].
  apply InjectLoop_flow, H1.
Qed.

End RemainingFlow.

Lemma Extract_idle (s : Soil) (TD : Q) (l : Locals) :
  0 <= SatFlow l -> Extract s TD l = l.
Proof.
  intros H. unfold Extract. apply Qltb_false in H. rewrite H. reflexivity.
Qed.

Lemma RemainingFlow_injection (F : Q) (s : Soil) (c : Cell) :
  0 <= F -> 0 <= RemainingFlow F s c.
Proof.
  intros H. unfold RemainingFlow, Redistribute.
  rewrite Extract_idle by exact H. apply Inject_flow. exact H.
Qed.

(** With a demand the routine only extracts; the flow that is left is the
    demand that is left. *)
Lemma RemainingFlow_extraction (F : Q) (s : Soil) (c : Cell) :
  F < 0 ->
  RemainingFlow F s c
  = SatFlow (ExtractDeep s (TableDepth c)
               (ExtractLoop s (TableDepth c) (NSoilLayers s) 0
                  (mkLocals 0 F (Moist c))))
  /\ RemainingFlow F s c <= 0.
Proof.
  intros H. unfold RemainingFlow, Redistribute.
  set (l0 := mkLocals 0 F (Moist c)).
  assert (E : Extract s (TableDepth c) l0
              = ExtractDeep s (TableDepth c)
                  (ExtractLoop s (TableDepth c) (NSoilLayers s) 0 l0)).
  { unfold Extract. simpl (SatFlow l0).
    apply Qltb_true in H. rewrite H. reflexivity. }
  rewrite E.
  assert (H1 : SatFlow (ExtractLoop s (TableDepth c) (NSoilLayers s) 0 l0) <= 0).
  { destruct (ExtractLoop_flow s (TableDepth c) (NSoilLayers s) 0 l0 H)
      as [[H1 _]|[H1 _]]; lra. }
  destruct (ExtractDeep_flow s (TableDepth c) _ H1) as [H2 _].
  rewrite Inject_idle by exact H2. split; [reflexivity | exact H2].
Qed.

Lemma RemainingFlow_computed (F : Q) (s : Soil) (c : Cell) :
  RemainingFlow F s c < 0 <-> F < 0 /\ AvaWaterComputed F s c < - F.
Proof.
  destruct (Qlt_le_dec F 0) as [HF|HF].
  - destruct (RemainingFlow_extraction F s c HF) as [-> _].
    unfold AvaWaterComputed. cbv zeta.
    set (l0 := mkLocals 0 F (Moist c)).
    set (l1 := ExtractLoop s (TableDepth c) (NSoilLayers s) 0 l0).
    pose proof (ExtractLoop_flow s (TableDepth c) (NSoilLayers s) 0 l0 HF) as HL.
    cbv zeta in HL. fold l1 in HL. simpl (SatFlow l0) in HL.
    assert (H1 : SatFlow l1 <= 0) by (destruct HL as [[? _]|[? _]]; lra).
    destruct (ExtractDeep_flow s (TableDepth c) l1 H1) as [_ HD].
    rewrite HD. clear HD.
    destruct HL as [[Hn He]|[Hz Hge]].
    + pose proof Hn as Hb. apply Qltb_true in Hb. rewrite Hb.
      split; [intros [_ H]; split; [exact HF | lra] | intros [_ H]; split; lra].
    + replace (SatFlow l1 <? 0) with false by (symmetry; apply Qltb_false; lra).
      split; [intros [H _]; lra | intros [_ H]; lra].
  - pose proof (RemainingFlow_injection F s c HF).
    split; [intros; lra | intros [? _]; lra].
Qed.

Section StaticAvailability.

Variable s : Soil.
Variable TD : Q.
Hypothesis AvaWater_nonneg :
  forall (i : nat) (D : Q), (i < NSoilLayers s)%nat -> 0 <= AvaWater s TD i D.
Hypothesis DeepAvaWater_nonneg : forall D : Q, 0 <= DeepAvaWater s TD D.

Lemma TotalAvaWater_nonneg (n i : nat) (D : Q) :
  (i + n = NSoilLayers s)%nat -> 0 <= TotalAvaWater s TD n i D.
Proof.
  revert i D. induction n as [|n IH]; intros i D Hin; simpl.
  - apply DeepAvaWater_nonneg.
  - destruct (D <? TotalDepth s); [|apply DeepAvaWater_nonneg].
    pose proof (AvaWater_nonneg i (NextDepth s i D) ltac:(lia)).
    pose proof (IH (S i) (NextDepth s i D) ltac:(lia)). lra.
Qed.

Lemma Extract_static (n i : nat) (l : Locals) :
  (i + n = NSoilLayers s)%nat ->
  SatFlow l < 0 ->
  SatFlow (ExtractDeep s TD (ExtractLoop s TD n i l)) < 0
  <-> TotalAvaWater s TD n i (Depth l) < - SatFlow l.
Proof.
  revert i l. induction n as [|n IH]; intros i l Hin Hf.
  - simpl. destruct (ExtractDeep_flow s TD l ltac:(lra)) as [_ ->].
    split; [intros [_ H]; exact H | intros H; split; assumption].
  - rewrite ExtractLoop_S. simpl TotalAvaWater.
    destruct (Depth l <? TotalDepth s).
    + pose proof (AvaWater_nonneg i (NextDepth s i (Depth l)) ltac:(lia)) as HA0.
      pose proof (TotalAvaWater_nonneg n (S i) (NextDepth s i (Depth l)) ltac:(lia))
        as HT0.
      destruct (ExtractLayer_flow s TD i l Hf) as [(HA & HE & HN)|(HA & HE)];
        cbv zeta in HA, HE; simpl Depth in HA, HE.
      * replace (SatFlow (ExtractLayer s TD i l) =? 0) with false
          by (symmetry; apply Qeqb_false; lra).
        rewrite (IH (S i) _ ltac:(lia) HN). simpl Depth.
        split; intros; lra.
      * replace (SatFlow (ExtractLayer s TD i l) =? 0) with true
          by (symmetry; apply Qeqb_true; exact HE).
        destruct (ExtractDeep_flow s TD (ExtractLayer s TD i l) ltac:(lra))
          as [_ ->].
        split; [intros [H _]; lra | intros; lra].
    + destruct (ExtractDeep_flow s TD l ltac:(lra)) as [_ ->].
      split; [intros [_ H]; exact H | intros H; split; assumption].
Qed.

End StaticAvailability.

(** Where the available water cannot be negative: porosity at least the
    field capacity, thickness and [Adjust] not negative, the water table
    inside the column. *)
Lemma AvaWater_physical (s : Soil) (TD : Q) (i : nat) (D : Q) :
  (FCap s).[i] <= (Porosity s).[i] ->
  0 <= (RootDepth s).[i] -> 0 <= (Adjust s).[i] ->
  0 <= AvaWater s TD i D.
Proof.
  intros HP HR HA. unfold AvaWater. qtest; try lra.
  - apply Qmult_le_0_compat; [apply Qmult_le_0_compat|]; lra.
  - apply Qmult_le_0_compat; [apply Qmult_le_0_compat|]; lra.
Qed.

Lemma DeepAvaWater_physical (s : Soil) (TD : Q) (D : Q) :
  (FCap s).[NSoilLayers s - 1] <= (Porosity s).[NSoilLayers s - 1] ->
  0 <= DeepLayerDepth s -> 0 <= (Adjust s).[NSoilLayers s] ->
  TD <= TotalDepth s ->
  0 <= DeepAvaWater s TD D.
Proof.
  intros HP HR HA HT. unfold DeepAvaWater. cbv zeta. qtest; try lra.
  - apply Qmult_le_0_compat; [apply Qmult_le_0_compat|]; lra.
  - apply Qmult_le_0_compat; [apply Qmult_le_0_compat|]; lra.
Qed.


(** ** The water balance *)

Section Balance.

Variable s : Soil.

Lemma MoistureAbove_S (m : list Q) (n : nat) :
  MoistureAbove s m (S n) = MoistureAbove s m n + m.[n] * Thickness s n.
Proof.
  unfold MoistureAbove. rewrite seq_S, fold_left_app. reflexivity.
Qed.

Lemma MoistureAbove_aset_below (m : list Q) (n i : nat) (v : Q) :
  (n <= i)%nat -> MoistureAbove s (aset m i v) n = MoistureAbove s m n.
Proof.
  induction n as [|n IH]; intros H; [reflexivity|].
  rewrite !MoistureAbove_S, IH, aget_aset_ne by lia. reflexivity.
Qed.

Lemma MoistureAbove_aset (m : list Q) (n i : nat) (v : Q) :
  (i < n)%nat -> (i < length m)%nat ->
  MoistureAbove s (aset m i v) n
  == MoistureAbove s m n + (v - m.[i]) * Thickness s i.
Proof.
  induction n as [|n IH]; intros Hn Hl; [lia|].
  rewrite !MoistureAbove_S.
  destruct (Nat.eq_dec i n) as [->|Hne].
  - rewrite MoistureAbove_aset_below, aget_aset_eq by (auto; lia). ring.
  - rewrite IH, aget_aset_ne by (auto; lia). ring.
Qed.

(** Adding the volume [x] to a layer adds [x] to the water of the
    column. *)
Lemma TotalMoisture_aadd (m : list Q) (i : nat) (x : Q) :
  (i <= NSoilLayers s)%nat -> (i < length m)%nat ->
  ~ Thickness s i == 0 ->
  TotalMoisture s (aadd m i (x / Thickness s i)) == TotalMoisture s m + x.
Proof.
  intros Hi Hl HT. unfold TotalMoisture, aadd.
  rewrite MoistureAbove_aset by (auto; lia). field. exact HT.
Qed.

Lemma TotalMoisture_aadd_gen (m : list Q) (i : nat) (v : Q) :
  (i <= NSoilLayers s)%nat -> (i < length m)%nat ->
  TotalMoisture s (aadd m i v) == TotalMoisture s m + v * Thickness s i.
Proof.
  intros Hi Hl. unfold TotalMoisture, aadd.
  rewrite MoistureAbove_aset by (auto; lia). ring.
Qed.

Lemma Thickness_root (i : nat) :
  i <> NSoilLayers s -> Thickness s i = (RootDepth s).[i] * (Adjust s).[i].
Proof.
  intros H. unfold Thickness. apply Nat.eqb_neq in H. rewrite H. reflexivity.
Qed.

Lemma Thickness_deep :
  Thickness s (NSoilLayers s) = DeepLayerDepth s * (Adjust s).[NSoilLayers s].
Proof. unfold Thickness. rewrite Nat.eqb_refl. reflexivity. Qed.

Hypothesis Thickness_nonzero :
  forall i : nat, (i <= NSoilLayers s)%nat -> ~ Thickness s i == 0.

Lemma TotalMoisture_aadd_root (m : list Q) (i : nat) (x : Q) :
  (i < NSoilLayers s)%nat -> length m = S (NSoilLayers s) ->
  TotalMoisture s (aadd m i (x / ((RootDepth s).[i] * (Adjust s).[i])))
  == TotalMoisture s m + x.
Proof.
  intros Hi Hl. rewrite <- Thickness_root by lia.
  apply TotalMoisture_aadd; [lia | lia | apply Thickness_nonzero; lia].
Qed.

Lemma TotalMoisture_aadd_deep (m : list Q) (x : Q) :
  length m = S (NSoilLayers s) ->
  TotalMoisture s (aadd m (NSoilLayers s)
                     (x / (DeepLayerDepth s * (Adjust s).[NSoilLayers s])))
  == TotalMoisture s m + x.
Proof.
  intros Hl. rewrite <- Thickness_deep.
  apply TotalMoisture_aadd; [lia | lia | apply Thickness_nonzero; lia].
Qed.

(** *** [DistributeSatflow] *)

Variable TD : Q.

Lemma Balanced_refl (l : Locals) : Balanced s l l.
Proof. split; reflexivity. Qed.

Lemma Balanced_trans (l1 l2 l3 : Locals) :
  Balanced s l1 l2 -> Balanced s l2 l3 -> Balanced s l1 l3.
Proof. intros [H1 H2] [H3 H4]. split; [congruence | lra]. Qed.

Lemma Balanced_root (l : Locals) (i : nat) (D E : Q) :
  (i < NSoilLayers s)%nat -> length (LMoist l) = S (NSoilLayers s) ->
  Balanced s l (mkLocals D (SatFlow l - E)
                (aadd (LMoist l) i (E / ((RootDepth s).[i] * (Adjust s).[i])))).
Proof.
  intros Hi Hl. split; simpl; [apply length_aadd|].
  rewrite TotalMoisture_aadd_root by assumption. ring.
Qed.

Lemma Balanced_deep (l : Locals) (D E : Q) :
  length (LMoist l) = S (NSoilLayers s) ->
  Balanced s l (mkLocals D (SatFlow l - E)
                (aadd (LMoist l) (NSoilLayers s)
                   (E / (DeepLayerDepth s * (Adjust s).[NSoilLayers s])))).
Proof.
  intros Hl. split; simpl; [apply length_aadd|].
  rewrite TotalMoisture_aadd_deep by assumption. ring.
Qed.

Lemma ExtractLoop_balanced (n i : nat) (l : Locals) :
  (i + n = NSoilLayers s)%nat -> length (LMoist l) = S (NSoilLayers s) ->
  Balanced s l (ExtractLoop s TD n i l).
Proof.
  revert i l. induction n as [|n IH]; intros i l Hin Hl.
  - apply Balanced_refl.
  - rewrite ExtractLoop_S.
    destruct (Depth l <? TotalDepth s); [|apply Balanced_refl].
    assert (HB : Balanced s l (ExtractLayer s TD i l))
      by (apply Balanced_root; [lia | exact Hl]).
    destruct (SatFlow (ExtractLayer s TD i l) =? 0); [exact HB|].
    apply (Balanced_trans _ _ _ HB). apply IH; [lia|].
    destruct HB as [HB _]. rewrite HB. exact Hl.
Qed.

Lemma ExtractDeep_balanced (l : Locals) :
  length (LMoist l) = S (NSoilLayers s) -> Balanced s l (ExtractDeep s TD l).
Proof.
  intros Hl. unfold ExtractDeep. cbv zeta.
  destruct (SatFlow l <? 0); [|apply Balanced_refl].
  apply Balanced_deep. exact Hl.
Qed.

Lemma Extract_balanced (l : Locals) :
  length (LMoist l) = S (NSoilLayers s) -> Balanced s l (Extract s TD l).
Proof.
  intros Hl. unfold Extract.
  destruct (SatFlow l <? 0); [|apply Balanced_refl].
  pose proof (ExtractLoop_balanced (NSoilLayers s) 0 l ltac:(lia) Hl) as HB.
  apply (Balanced_trans _ _ _ HB). apply ExtractDeep_balanced.
  destruct HB as [HB _]. rewrite HB. exact Hl.
Qed.

Lemma InjectLoop_balanced (k : nat) (l : Locals) :
  (k <= NSoilLayers s)%nat -> length (LMoist l) = S (NSoilLayers s) ->
  Balanced s l (InjectLoop s TD k l).
Proof.
  revert l. induction k as [|k IH]; intros l Hk Hl; [apply Balanced_refl|].
  rewrite InjectLoop_S.
  assert (HB : Balanced s l (InjectLayer s TD k l))
    by (apply Balanced_root; [lia | exact Hl]).
  destruct (SatFlow (InjectLayer s TD k l) =? 0); [exact HB|].
  apply (Balanced_trans _ _ _ HB). apply IH; [lia|].
  destruct HB as [HB _]. rewrite HB. exact Hl.
Qed.

Lemma Inject_balanced (l : Locals) :
  length (LMoist l) = S (NSoilLayers s) -> Balanced s l (Inject s TD l).
Proof.
  intros Hl. unfold Inject.
  destruct (0 <? SatFlow l); [|apply Balanced_refl].
  assert (HB : Balanced s l (InjectDeep s TD l)) by (apply Balanced_deep; exact Hl).
  cbv zeta. destruct (0 <? SatFlow (InjectDeep s TD l)); [|exact HB].
  apply (Balanced_trans _ _ _ HB). apply InjectLoop_balanced; [lia|].
  destruct HB as [HB _]. rewrite HB. exact Hl.
Qed.

End Balance.

(** [DistributeSatflow] places the whole flow: in the layers, or in the
    runoff. *)
Lemma DistributeSatflow_balance (Dt : Z) (DX DY F : Q) (s : Soil) (c c' : Cell) :
  (forall i : nat, (i <= NSoilLayers s)%nat -> ~ Thickness s i == 0) ->
  length (Moist c) = S (NSoilLayers s) ->
  DistributeSatflow Dt DX DY F s c = Some c' ->
  WaterGained s c c' == F.
Proof.
  intros HT Hl HS. unfold WaterGained.
  assert (HB : Balanced s (mkLocals 0 F (Moist c)) (Redistribute F s c)).
  { unfold Redistribute.
    pose proof (Extract_balanced s HT (TableDepth c) (mkLocals 0 F (Moist c)) Hl)
      as H1.
    apply (Balanced_trans _ _ _ _ H1). apply Inject_balanced; [exact HT|].
    destruct H1 as [H1 _]. rewrite H1. exact Hl. }
  destruct HB as [_ HB]. simpl in HB.
  unfold DistributeSatflow, RemainingFlow in HS.
  destruct (0 <=? SatFlow (Redistribute F s c)) eqn:Hrem; [|discriminate].
  apply Qleb_true in Hrem. injection HS as <-.
  unfold DistributeSatflow_cell. simpl. qtest; lra.
Qed.

(** *** [UnsaturatedFlow] *)

Section VerticalBalance.

Variable pow : Q -> Q -> Q.
Variable DYNAMIC : Z.
Variable WaterTableDepth :
  nat -> Q -> list Q -> list Q -> list Q -> list Q -> list Q -> Q * list Q.
Variable Dt : Z.
Variable s : Soil.

Hypothesis layers : (1 <= NSoilLayers s)%nat.
Hypothesis Thickness_nonzero :
  forall i : nat, (i <= NSoilLayers s)%nat -> ~ Thickness s i == 0.
Hypothesis PercArea_nonzero : ~ (PercArea s).[NSoilLayers s - 1] == 0.

Lemma RoadbedStep_balance (R : Q) (z : Z) (b : Q) (c : Cell) :
  length (Moist c) = S (NSoilLayers s) ->
  (b < TableDepth c -> (0 <= z <= Z.of_nat (NSoilLayers s))%Z) ->
  let c1 := RoadbedStep s R z b c in
  length (Moist c1) = S (NSoilLayers s)
  /\ TotalMoisture s (Moist c1) + Runoff c1
     == TotalMoisture s (Moist c) + Runoff c + R.
Proof.
  intros Hl Hz. unfold RoadbedStep. cbv zeta.
  destruct (TableDepth c <=? b) eqn:Hb;
    [|apply Qleb_false in Hb; specialize (Hz Hb)]; simpl.
  - split; [exact Hl | ring].
  - destruct (z =? Z.of_nat (NSoilLayers s))%Z eqn:Hd; simpl.
    + rewrite length_aadd, (TotalMoisture_aadd_deep s Thickness_nonzero) by exact Hl.
      split; [exact Hl | ring].
    + apply Z.eqb_neq in Hd.
      replace (z >=? 0)%Z with true by (symmetry; rewrite Z.geb_leb; apply Z.leb_le; lia).
      simpl.
      rewrite length_aadd, (TotalMoisture_aadd_root s Thickness_nonzero)
        by (auto; lia).
      split; [exact Hl | ring].
Qed.

Lemma SurfaceStep_balance (I : Q) (o : Z) (c : Cell) :
  length (Moist c) = S (NSoilLayers s) ->
  let c2 := fst (SurfaceStep DYNAMIC s I o c) in
  length (Moist c2) = S (NSoilLayers s)
  /\ TotalMoisture s (Moist c2) + Runoff c2
     == TotalMoisture s (Moist c) + Runoff c + I.
Proof.
  intros Hl. unfold SurfaceStep.
  destruct (TableDepth c <=? 0); simpl.
  - split; [exact Hl | ring].
  - rewrite length_aadd, (TotalMoisture_aadd_root s Thickness_nonzero)
      by (auto; lia).
    split; [exact Hl | ring].
Qed.

Lemma length_DrainLayer (mp : list Q * list Q) (i : nat) :
  length (fst (DrainLayer pow Dt s mp i)) = length (fst mp)
  /\ length (snd (DrainLayer pow Dt s mp i)) = length (snd mp).
Proof.
  destruct mp as [m p]. unfold DrainLayer.
  destruct ((FCap s).[i] <? m.[i]); cbv zeta; simpl.
  - destruct (i <? NSoilLayers s - 1)%nat;
      rewrite ?length_aadd, length_aset; split; reflexivity.
  - rewrite length_aset. split; reflexivity.
Qed.

Lemma length_DrainLayers (n : nat) (mp : list Q * list Q) :
  length (fst (DrainLayers pow Dt s n mp)) = length (fst mp)
  /\ length (snd (DrainLayers pow Dt s n mp)) = length (snd mp).
Proof.
  induction n as [|n [IH1 IH2]]; [split; reflexivity|].
  rewrite DrainLayers_S.
  destruct (length_DrainLayer (DrainLayers pow Dt s n mp) n) as [L1 L2].
  split; congruence.
Qed.

(** A layer above the lowest root layer hands its percolation to the layer
    below it. *)
Lemma DrainLayer_balance_inner (mp : list Q * list Q) (i : nat) :
  (S i < NSoilLayers s)%nat -> length (fst mp) = S (NSoilLayers s) ->
  TotalMoisture s (fst (DrainLayer pow Dt s mp i)) == TotalMoisture s (fst mp).
Proof.
  intros Hi Hl. destruct mp as [m p]. simpl in Hl. unfold DrainLayer.
  destruct ((FCap s).[i] <? m.[i]); cbv zeta; simpl; [|reflexivity].
  replace (i <? NSoilLayers s - 1)%nat with true
    by (symmetry; apply Nat.ltb_lt; lia).
  rewrite (TotalMoisture_aadd_root s Thickness_nonzero)
    by (rewrite ?length_aadd; auto; lia).
  rewrite TotalMoisture_aadd_gen by lia.
  rewrite Thickness_root by lia.
  pose proof (Thickness_nonzero i ltac:(lia)) as HT.
  rewrite Thickness_root in HT by lia.
  field. split; intros H0; apply HT; rewrite H0; ring.
Qed.

(** The lowest root layer keeps its percolation in [Perc] for the deep
    layer. *)
Lemma DrainLayer_balance_last (mp : list Q * list Q) :
  length (fst mp) = S (NSoilLayers s) -> length (snd mp) = NSoilLayers s ->
  let i := (NSoilLayers s - 1)%nat in
  let mp' := DrainLayer pow Dt s mp i in
  TotalMoisture s (fst mp') + (snd mp').[i] * (PercArea s).[i]
  == TotalMoisture s (fst mp).
Proof.
  intros Hl Hp i. destruct mp as [m p]. simpl in Hl, Hp. unfold DrainLayer.
  assert (Hi : (i < NSoilLayers s)%nat) by (unfold i; lia).
  destruct ((FCap s).[i] <? m.[i]); cbv zeta; simpl.
  - replace (i <? NSoilLayers s - 1)%nat with false
      by (symmetry; apply Nat.ltb_ge; unfold i; lia).
    rewrite aget_aset_eq by lia.
    rewrite TotalMoisture_aadd_gen by lia.
    rewrite Thickness_root by lia.
    pose proof (Thickness_nonzero i ltac:(lia)) as HT.
    rewrite Thickness_root in HT by lia.
    field. repeat split; try exact PercArea_nonzero;
      intros H0; apply HT; rewrite H0; ring.
  - rewrite aget_aset_eq by lia. field. exact PercArea_nonzero.
Qed.

Lemma DrainLayers_balance_inner (mp : list Q * list Q) (n : nat) :
  (n < NSoilLayers s)%nat -> length (fst mp) = S (NSoilLayers s) ->
  let mp' := DrainLayers pow Dt s n mp in
  length (fst mp') = length (fst mp) /\ length (snd mp') = length (snd mp)
  /\ TotalMoisture s (fst mp') == TotalMoisture s (fst mp).
Proof.
  intros Hn Hl. induction n as [|n IH].
  - repeat split; reflexivity.
  - destruct (IH ltac:(lia)) as (H1 & H2 & H3). cbv zeta.
    rewrite DrainLayers_S.
    destruct (length_DrainLayer (DrainLayers pow Dt s n mp) n) as [L1 L2].
    rewrite L1, L2, DrainLayer_balance_inner by (auto; lia).
    repeat split; assumption.
Qed.

Lemma DrainStep_balance (c : Cell) :
  length (Moist c) = S (NSoilLayers s) -> length (Perc c) = NSoilLayers s ->
  let c3 := DrainStep pow Dt s c in
  TotalMoisture s (Moist c3) == TotalMoisture s (Moist c)
  /\ Runoff c3 = Runoff c.
Proof.
  intros Hl Hp. unfold DrainStep. cbv zeta.
  set (N := NSoilLayers s) in *.
  assert (E : DrainLayers pow Dt s N (Moist c, Perc c)
              = DrainLayer pow Dt s
                  (DrainLayers pow Dt s (N - 1) (Moist c, Perc c)) (N - 1)).
  { replace N with (S (N - 1)) at 1 by lia. apply DrainLayers_S. }
  destruct (DrainLayers_balance_inner (Moist c, Perc c) (N - 1)
              ltac:(fold N; lia) Hl) as (L1 & L2 & B).
  simpl in L1, L2, B.
  pose proof (DrainLayer_balance_last
                (DrainLayers pow Dt s (N - 1) (Moist c, Perc c))
                ltac:(rewrite L1; exact Hl) ltac:(rewrite L2; exact Hp)) as BL.
  cbv zeta in BL. fold N in BL. rewrite <- E in BL.
  destruct (length_DrainLayer (DrainLayers pow Dt s (N - 1) (Moist c, Perc c)) (N - 1))
    as [L3 _].
  rewrite <- E in L3. clear E. unfold N in *. clear N.
  destruct (DrainLayers pow Dt s (NSoilLayers s) (Moist c, Perc c)) as [m p].
  simpl in *. split; [|reflexivity].
  rewrite (TotalMoisture_aadd_deep s Thickness_nonzero) by congruence.
  lra.
Qed.

Lemma UnsaturatedFlow_balance
    (DX DY Infiltration RoadbedInfiltration SatFlow Area : Q)
    (CutBankZone : Z) (BankHeight : Q) (c : Cell) (o : Z) :
  length (Moist c) = S (NSoilLayers s) -> length (Perc c) = NSoilLayers s ->
  (BankHeight < TableDepth c ->
   (0 <= CutBankZone <= Z.of_nat (NSoilLayers s))%Z) ->
  TableStepConserves WaterTableDepth s
    (DrainStep pow Dt s
       (fst (SurfaceStep DYNAMIC s Infiltration o
               (RoadbedStep s RoadbedInfiltration CutBankZone BankHeight c)))) ->
  let c' := UnsaturatedFlow pow DYNAMIC WaterTableDepth Dt DX DY Infiltration
              RoadbedInfiltration SatFlow s Area CutBankZone BankHeight c o in
  length (Moist c') = S (NSoilLayers s)
  /\ WaterGained s c c' == Infiltration + RoadbedInfiltration.
Proof.
  intros Hl Hp Hz HW.
  unfold UnsaturatedFlow, UnsaturatedFlow_locals, BeforePonding. cbv zeta.
  destruct (RoadbedStep_balance RoadbedInfiltration CutBankZone BankHeight c Hl Hz)
    as [L1 B1].
  set (c1 := RoadbedStep s RoadbedInfiltration CutBankZone BankHeight c) in *.
  assert (P1 : Perc c1 = Perc c) by apply Perc_RoadbedStep.
  destruct (SurfaceStep_balance Infiltration o c1 L1) as [L2 B2].
  pose proof (Perc_SurfaceStep DYNAMIC s Infiltration o c1) as P2.
  destruct (SurfaceStep DYNAMIC s Infiltration o c1) as [c2 I2].
  simpl in L2, B2, P2, HW |- *.
  destruct (DrainStep_balance c2 L2 ltac:(congruence)) as [B3 R3].
  assert (L3 : length (Moist (DrainStep pow Dt s c2)) = S (NSoilLayers s)).
  { unfold DrainStep. cbv zeta.
    pose proof (length_DrainLayers (NSoilLayers s) (Moist c2, Perc c2)) as [L _].
    destruct (DrainLayers pow Dt s (NSoilLayers s) (Moist c2, Perc c2)).
    simpl in *. rewrite length_aadd. congruence. }
  destruct HW as [L4 B4].
  pose proof (Runoff_TableStep WaterTableDepth s (DrainStep pow Dt s c2)) as R4.
  set (c4 := TableStep WaterTableDepth s (DrainStep pow Dt s c2)) in *.
  unfold WaterGained, PondingStep.
  destruct (TableDepth c4 <? 0); simpl; (split; [congruence|]);
    rewrite ?R4, ?R3 in *; lra.
Qed.

End VerticalBalance.

(** C1, as it holds.  [UnsaturatedFlow] places the surface and the roadbed
    infiltration, whatever its argument [SatFlow] is; [DistributeSatflow],
    when its assertion holds, places the flow; one after the other they
    place the three.  This needs: at least one root layer, arrays of the
    expected length, [RootDepth * Adjust] and [DeepLayerDepth * Adjust[N]]
    different from zero, [PercArea] of the lowest root layer different
    from zero, a cut-bank zone that is a layer or the deep layer when the
    table is below the cut, and a [WaterTableDepth] that loses no
    water. *)
Theorem water_balance
    (pow : Q -> Q -> Q) (DYNAMIC : Z)
    (WaterTableDepth :
       nat -> Q -> list Q -> list Q -> list Q -> list Q -> list Q -> Q * list Q)
    (Dt : Z) (DX DY Infiltration RoadbedInfiltration SatFlow : Q) (s : Soil)
    (Area : Q) (CutBankZone : Z) (BankHeight : Q) (c : Cell) (o : Z) :
  (1 <= NSoilLayers s)%nat ->
  length (Moist c) = S (NSoilLayers s) ->
  length (Perc c) = NSoilLayers s ->
  (forall i : nat, (i <= NSoilLayers s)%nat -> ~ Thickness s i == 0) ->
  ~ (PercArea s).[NSoilLayers s - 1] == 0 ->
  (BankHeight < TableDepth c ->
   (0 <= CutBankZone <= Z.of_nat (NSoilLayers s))%Z) ->
  TableStepConserves WaterTableDepth s
    (DrainStep pow Dt s
       (fst (SurfaceStep DYNAMIC s Infiltration o
               (RoadbedStep s RoadbedInfiltration CutBankZone BankHeight c)))) ->
  let c1 := UnsaturatedFlow pow DYNAMIC WaterTableDepth Dt DX DY Infiltration
              RoadbedInfiltration SatFlow s Area CutBankZone BankHeight c o in
  WaterGained s c c1 == Infiltration + RoadbedInfiltration
  /\ (forall (F : Q) (c2 : Cell),
        DistributeSatflow Dt DX DY F s c = Some c2 -> WaterGained s c c2 == F)
  /\ (forall c2 : Cell,
        DistributeSatflow Dt DX DY SatFlow s c1 = Some c2 ->
        WaterGained s c c2 == Infiltration + RoadbedInfiltration + SatFlow).
Proof.
  intros HN Hl Hp HT HA Hz HW c1.
  destruct (UnsaturatedFlow_balance pow DYNAMIC WaterTableDepth Dt s HN HT HA
              DX DY Infiltration RoadbedInfiltration SatFlow Area CutBankZone
              BankHeight c o Hl Hp Hz HW) as [L1 B1].
  fold c1 in L1, B1.
  split; [exact B1|]. split.
  - intros F c2 HS. apply (DistributeSatflow_balance Dt DX DY F s c c2 HT Hl HS).
  - intros c2 HS.
    pose proof (DistributeSatflow_balance Dt DX DY SatFlow s c1 c2 HT L1 HS) as B2.
    unfold WaterGained in *. lra.
Qed.

(** ** The extraction scenario *)

(** C8. In the column of two layers (0.5 m and 1 m in 2 m, porosities 0.45
    and 0.40, field capacities 0.20 and 0.25, [Adjust] 1) with the table at
    0.3 m, a flow of -0.02 m is taken from layer 0, the layer the table
    lies in: its available water is (0.45 - 0.20) * 1 * (0.5 - 0.3) = 0.05,
    which covers the demand, so nothing is left for the layers below.  The
    routine returns normally, the water of the column drops by exactly
    0.02, the flow left is 0 and the runoff is unchanged.  This holds for
    every moisture profile, runoff and [Perc]. *)
Theorem extraction_scenario
    (Dt : Z) (DX DY : Q) (Ks PoreDist PercArea : list Q) (m0 m1 m2 : Q)
    (p : list Q) (r : Q) :
  let s := soil2 Ks PoreDist PercArea in
  let c := mkCell [m0; m1; m2] p (3 # 10) r in
  AvaWater s (3 # 10) 0 (NextDepth s 0 0)
  == ((45 # 100) - (20 # 100)) * 1 * ((1 # 2) - (3 # 10))
  /\ RemainingFlow (- (2 # 100)) s c == 0
  /\ TotalMoisture s (Moist c)
     - TotalMoisture s (LMoist (Redistribute (- (2 # 100)) s c)) == 2 # 100
  /\ exists m0' : Q,
       m0' == m0 - (2 # 100) / ((1 # 2) * 1)
       /\ DistributeSatflow Dt DX DY (- (2 # 100)) s c
          = Some (mkCell [m0'; m1; m2] p (3 # 10) r).
Proof.
  intros s c.
  assert (E : Redistribute (- (2 # 100)) s c
              = mkLocals (1 # 2) (- (2 # 100) - - (2 # 100))
                  [m0 + - (2 # 100) / ((1 # 2) * 1); m1; m2]).
  { reflexivity. }
  split; [reflexivity|]. split; [rewrite (f_equal SatFlow E : RemainingFlow _ s c = _); reflexivity|].
  split.
  - rewrite E. unfold c, TotalMoisture, MoistureAbove. simpl.
    unfold Thickness, DeepLayerDepth. simpl. unfold aget. simpl nth. field.
  - exists (m0 + - (2 # 100) / ((1 # 2) * 1)). split; [field|].
    unfold DistributeSatflow, DistributeSatflow_cell, RemainingFlow. rewrite E.
    reflexivity.
Qed.

(** ** Injection *)

Section Injection.

Variable s : Soil.
Variable TD : Q.

Hypothesis RootDepth_pos :
  forall i : nat, (i < NSoilLayers s)%nat -> 0 < (RootDepth s).[i].
Hypothesis DeepLayerDepth_pos : 0 < DeepLayerDepth s.
Hypothesis Adjust_pos :
  forall i : nat, (i <= NSoilLayers s)%nat -> 0 < (Adjust s).[i].

(** Filling a layer of thickness [T] that holds [M] and can hold [P]. *)
Lemma fill_cases (f M P T : Q) :
  0 < f -> M <= P -> 0 < T ->
  let E := FillWater f ((P - M) * T) in
  M <= M + E / T /\ M + E / T <= P /\ 0 <= f - E
  /\ (M + E / T < P -> f - E == 0).
Proof.
  intros Hf HM HT E.
  assert (Hg : 0 <= (P - M) * T) by (apply Qmult_le_0_compat; lra).
  destruct (FillWater_cases f ((P - M) * T)) as [[Hc HE]|[Hc HE]];
    unfold E; rewrite HE.
  - assert (Hq : (P - M) * T / T == P - M) by (field; lra).
    rewrite Hq. repeat split; try lra.
  - assert (H0 : 0 <= f / T)
      by (apply Qmult_le_0_compat; [lra | apply Qinv_le_0_compat; lra]).
    assert (H1 : f / T <= P - M) by (apply Qle_shift_div_r; lra).
    repeat split; try lra.
Qed.

Lemma InjectLayer_filled (i : nat) (l : Locals) :
  (i < NSoilLayers s)%nat -> length (LMoist l) = S (NSoilLayers s) ->
  0 < SatFlow l -> (LMoist l).[i] <= LayerPorosity s i ->
  Filled s i l (InjectLayer s TD i l).
Proof.
  intros Hi Hl Hf HM.
  assert (EP : LayerPorosity s i = (Porosity s).[i]).
  { unfold LayerPorosity. replace (i =? NSoilLayers s)%nat with false
      by (symmetry; apply Nat.eqb_neq; lia). reflexivity. }
  rewrite EP in HM. unfold Filled. rewrite EP. unfold InjectLayer. simpl.
  pose proof (RootDepth_pos i Hi) as HR.
  pose proof (Adjust_pos i ltac:(lia)) as HA.
  assert (HT : 0 < (RootDepth s).[i] * (Adjust s).[i]) by nra.
  pose proof (fill_cases (SatFlow l) (LMoist l).[i] (Porosity s).[i]
                ((RootDepth s).[i] * (Adjust s).[i]) Hf HM HT) as HF.
  cbv zeta in HF.
  assert (EG : ((Porosity s).[i] - (LMoist l).[i]) * (RootDepth s).[i] * (Adjust s).[i]
               == ((Porosity s).[i] - (LMoist l).[i])
                  * ((RootDepth s).[i] * (Adjust s).[i])) by ring.
  assert (EF : FillWater (SatFlow l)
                 (((Porosity s).[i] - (LMoist l).[i]) * (RootDepth s).[i]
                  * (Adjust s).[i])
               == FillWater (SatFlow l)
                    (((Porosity s).[i] - (LMoist l).[i])
                     * ((RootDepth s).[i] * (Adjust s).[i]))).
  { unfold FillWater. qtest; lra. }
  rewrite length_aadd, aget_aadd_eq by lia.
  split; [reflexivity|]. split; [intros j Hj; apply aget_aadd_ne; auto|].
  rewrite EF. exact HF.
Qed.

Lemma InjectDeep_filled (l : Locals) :
  length (LMoist l) = S (NSoilLayers s) ->
  0 < SatFlow l -> (LMoist l).[NSoilLayers s] <= LayerPorosity s (NSoilLayers s) ->
  Filled s (NSoilLayers s) l (InjectDeep s TD l).
Proof.
  intros Hl Hf HM.
  assert (EP : LayerPorosity s (NSoilLayers s) = (Porosity s).[NSoilLayers s - 1]).
  { unfold LayerPorosity. rewrite Nat.eqb_refl. reflexivity. }
  rewrite EP in HM. unfold Filled. rewrite EP. unfold InjectDeep. simpl.
  pose proof (Adjust_pos (NSoilLayers s) ltac:(lia)) as HA.
  assert (HT : 0 < DeepLayerDepth s * (Adjust s).[NSoilLayers s]) by nra.
  pose proof (fill_cases (SatFlow l) (LMoist l).[NSoilLayers s]
                (Porosity s).[NSoilLayers s - 1]
                (DeepLayerDepth s * (Adjust s).[NSoilLayers s]) Hf HM HT) as HF.
  cbv zeta in HF.
  assert (EF : FillWater (SatFlow l)
                 (((Porosity s).[NSoilLayers s - 1] - (LMoist l).[NSoilLayers s])
                  * DeepLayerDepth s * (Adjust s).[NSoilLayers s])
               == FillWater (SatFlow l)
                    (((Porosity s).[NSoilLayers s - 1] - (LMoist l).[NSoilLayers s])
                     * (DeepLayerDepth s * (Adjust s).[NSoilLayers s]))).
  { unfold FillWater. qtest; lra. }
  rewrite length_aadd, aget_aadd_eq by lia.
  split; [reflexivity|]. split; [intros j Hj; apply aget_aadd_ne; auto|].
  rewrite EF. exact HF.
Qed.

(** The loop fills the root layers from the lowest one up: a layer that
    is not full at the end means that the flow ran out there, and that the
    layers above it are as they were. *)
Lemma InjectLoop_fills (k : nat) (l : Locals) :
  (k <= NSoilLayers s)%nat -> length (LMoist l) = S (NSoilLayers s) ->
  0 < SatFlow l ->
  (forall j : nat, (j < k)%nat -> (LMoist l).[j] <= LayerPorosity s j) ->
  let l' := InjectLoop s TD k l in
  length (LMoist l') = S (NSoilLayers s)
  /\ (forall j : nat, (k <= j)%nat -> (LMoist l').[j] = (LMoist l).[j])
  /\ (forall j : nat, (j < k)%nat ->
        (LMoist l).[j] <= (LMoist l').[j] /\ (LMoist l').[j] <= LayerPorosity s j)
  /\ 0 <= SatFlow l'
  /\ (forall i : nat, (i < k)%nat -> (LMoist l').[i] < LayerPorosity s i ->
        (forall j : nat, (j < i)%nat -> (LMoist l').[j] = (LMoist l).[j])
        /\ SatFlow l' == 0).
Proof.
  revert l. induction k as [|k IH]; intros l Hk Hl Hf HM; cbv zeta.
  - simpl. repeat split; auto; try lra; try lia; intros; lia.
  - rewrite InjectLoop_S.
    destruct (InjectLayer_filled k l ltac:(lia) Hl Hf (HM k ltac:(lia)))
      as (L1 & F1 & B1 & B2 & N1 & Z1).
    set (l1 := InjectLayer s TD k l) in *.
    destruct (SatFlow l1 =? 0) eqn:Hz;
      [apply Qeqb_true in Hz | apply Qeqb_false in Hz].
    + split; [congruence|]. split; [intros j Hj; apply F1; lia|].
      split; [|split; [exact N1|]].
      * intros j Hj. destruct (Nat.eq_dec j k) as [->|Hne]; [split; assumption|].
        rewrite F1 by exact Hne. split; [lra | apply HM; lia].
      * intros i Hi Hlt. split; [|exact Hz].
        intros j Hj. apply F1. lia.
    + assert (Hpos : 0 < SatFlow l1) by lra.
      assert (Hfull : LayerPorosity s k <= (LMoist l1).[k]).
      { destruct (Qlt_le_dec (LMoist l1).[k] (LayerPorosity s k)) as [H|H];
          [exfalso; apply Hz, Z1, H | exact H]. }
      assert (HM1 : forall j : nat, (j < k)%nat ->
                (LMoist l1).[j] <= LayerPorosity s j).
      { intros j Hj. rewrite F1 by lia. apply HM. lia. }
      destruct (IH l1 ltac:(lia) ltac:(congruence) Hpos HM1)
        as (L2 & F2 & B3 & N2 & Z2).
      split; [exact L2|]. split; [intros j Hj; rewrite F2, F1 by lia; reflexivity|].
      split; [|split; [exact N2|]].
      * intros j Hj. destruct (Nat.eq_dec j k) as [->|Hne].
        -- rewrite F2 by lia. split; assumption.
        -- destruct (B3 j ltac:(lia)) as [H1 H2]. rewrite F1 in H1 by exact Hne.
           split; assumption.
      * intros i Hi Hlt. destruct (Nat.eq_dec i k) as [->|Hne].
        -- rewrite F2 in Hlt by lia. lra.
        -- destruct (Z2 i ltac:(lia) Hlt) as [U Z]. split; [|exact Z].
           intros j Hj. rewrite U, F1 by lia. reflexivity.
Qed.

End Injection.

(** C2, as it holds.  With the water table in the deep layer, so that every
    root layer lies above the saturated zone, an injection fills the deep
    layer first and then the root layers from the lowest one up, each to
    its porosity at most: the routine returns normally, no layer loses
    water or ends above its porosity, a layer that is not full at the end
    means that the layers above it are untouched and that nothing went to
    the runoff, and the layers and the runoff together gain the flow.  The
    column must have positive thicknesses and [Adjust], and no layer above
    its porosity on entry. *)
Theorem injection_fills_from_the_bottom
    (Dt : Z) (DX DY F : Q) (s : Soil) (c : Cell) :
  0 < F ->
  length (Moist c) = S (NSoilLayers s) ->
  (forall i : nat, (i < NSoilLayers s)%nat -> 0 < (RootDepth s).[i]) ->
  0 < DeepLayerDepth s ->
  (forall i : nat, (i <= NSoilLayers s)%nat -> 0 < (Adjust s).[i]) ->
  (forall i : nat, (i <= NSoilLayers s)%nat -> (Moist c).[i] <= LayerPorosity s i) ->
  TotalDepth s - TableDepth c < DeepLayerDepth s ->
  exists c' : Cell,
    DistributeSatflow Dt DX DY F s c = Some c'
    /\ (forall i : nat, (i <= NSoilLayers s)%nat ->
          (Moist c).[i] <= (Moist c').[i] /\ (Moist c').[i] <= LayerPorosity s i)
    /\ (forall i : nat, (i <= NSoilLayers s)%nat ->
          (Moist c').[i] < LayerPorosity s i ->
          (forall j : nat, (j < i)%nat -> (Moist c').[j] = (Moist c).[j])
          /\ Runoff c' = Runoff c)
    /\ WaterGained s c c' == F.
Proof.
  intros HF Hl HR HD HA HM Htable.
  set (TD := TableDepth c). set (l0 := mkLocals 0 F (Moist c)).
  assert (HT : forall i : nat, (i <= NSoilLayers s)%nat -> ~ Thickness s i == 0).
  { intros i Hi. unfold Thickness.
    pose proof (HA i Hi) as HAi.
    destruct (i =? NSoilLayers s)%nat eqn:E.
    - nra.
    - apply Nat.eqb_neq in E. pose proof (HR i ltac:(lia)). nra. }
  (* the locals at the end of the injection *)
  assert (HI : exists l : Locals,
             Redistribute F s c = l
             /\ 0 <= SatFlow l
             /\ (forall i : nat, (i <= NSoilLayers s)%nat ->
                   (Moist c).[i] <= (LMoist l).[i]
                   /\ (LMoist l).[i] <= LayerPorosity s i)
             /\ (forall i : nat, (i <= NSoilLayers s)%nat ->
                   (LMoist l).[i] < LayerPorosity s i ->
                   (forall j : nat, (j < i)%nat -> (LMoist l).[j] = (Moist c).[j])
                   /\ SatFlow l == 0)).
  { unfold Redistribute. fold TD l0.
    rewrite Extract_idle by (simpl; lra).
    unfold Inject. simpl (SatFlow l0).
    replace (0 <? F) with true by (symmetry; apply Qltb_true; exact HF).
    cbv zeta.
    destruct (InjectDeep_filled s TD HD HA l0 Hl HF
                (HM (NSoilLayers s) ltac:(lia)))
      as (L1 & F1 & B1 & B2 & N1 & Z1).
    set (l1 := InjectDeep s TD l0) in *. simpl (LMoist l0) in *.
    destruct (0 <? SatFlow l1) eqn:Hpos;
      [apply Qltb_true in Hpos | apply Qltb_false in Hpos].
    - assert (HM1 : forall j : nat, (j < NSoilLayers s)%nat ->
                (LMoist l1).[j] <= LayerPorosity s j).
      { intros j Hj. rewrite F1 by lia. apply HM. lia. }
      destruct (InjectLoop_fills s TD HR HA (NSoilLayers s) l1 ltac:(lia)
                  ltac:(congruence) Hpos HM1) as (L2 & F2 & B3 & N2 & Z2).
      eexists. split; [reflexivity|]. split; [exact N2|]. split.
      + intros i Hi. destruct (Nat.eq_dec i (NSoilLayers s)) as [->|Hne].
        * rewrite F2 by lia. split; assumption.
        * destruct (B3 i ltac:(lia)) as [H1 H2]. rewrite F1 in H1 by exact Hne.
          split; assumption.
      + intros i Hi Hlt. destruct (Nat.eq_dec i (NSoilLayers s)) as [->|Hne].
        * rewrite F2 in Hlt by lia. pose proof (Z1 Hlt). lra.
        * destruct (Z2 i ltac:(lia) Hlt) as [U Z]. split; [|exact Z].
          intros j Hj. rewrite U, F1 by lia. reflexivity.
    - eexists. split; [reflexivity|]. split; [exact N1|]. split.
      + intros i Hi. destruct (Nat.eq_dec i (NSoilLayers s)) as [->|Hne].
        * split; assumption.
        * rewrite F1 by exact Hne. split; [lra | apply HM; exact Hi].
      + intros i Hi Hlt. split; [|lra].
        intros j Hj. apply F1. lia. }
  destruct HI as (l & El & Hrem & Hb & Hz).
  exists (DistributeSatflow_cell F s c).
  assert (ES : DistributeSatflow Dt DX DY F s c = Some (DistributeSatflow_cell F s c)).
  { unfold DistributeSatflow, RemainingFlow. rewrite El.
    apply Qleb_true in Hrem. rewrite Hrem. reflexivity. }
  split; [exact ES|].
  split; [|split].
  - unfold DistributeSatflow_cell. rewrite El. simpl. exact Hb.
  - unfold DistributeSatflow_cell. rewrite El. simpl.
    intros i Hi Hlt. destruct (Hz i Hi Hlt) as [U Z]. split; [exact U|].
    replace (0 <? SatFlow l) with false by (symmetry; apply Qltb_false; lra).
    reflexivity.
  - apply (DistributeSatflow_balance Dt DX DY F s c _ HT Hl ES).
Qed.

(** ** The theorems on the example columns *)

Lemma pow_model_nonneg (x e : Q) : 0 <= x -> 0 <= pow_model x e.
Proof. intros H. unfold pow_model. apply Qpower_0_le. exact H. Qed.

Lemma soil2K_thickness (i : nat) :
  (i <= NSoilLayers soil2K)%nat -> ~ Thickness soil2K i == 0.
Proof.
  intros Hi. destruct i as [|[|[|i]]]; [| | |simpl in Hi; lia];
    intros H; vm_compute in H; discriminate.
Qed.

(** C1 on the two-layer column: 0.01 m through the surface and 0.02 m
    through the roadbed into layer 1, a lateral flow of 0.01 m. *)
Lemma water_balance_witness :
  let c1 := UnsaturatedFlow_model 3600 10 10 (1 # 100) (2 # 100) (1 # 100) soil2K
              1 1 (1 # 10) cell_moist 0 in
  WaterGained soil2K cell_moist c1 == (1 # 100) + (2 # 100)
  /\ (forall (F : Q) (c2 : Cell),
        DistributeSatflow 3600 10 10 F soil2K cell_moist = Some c2 ->
        WaterGained soil2K cell_moist c2 == F)
  /\ (forall c2 : Cell,
        DistributeSatflow 3600 10 10 (1 # 100) soil2K c1 = Some c2 ->
        WaterGained soil2K cell_moist c2 == (1 # 100) + (2 # 100) + (1 # 100)).
Proof.
  apply (water_balance pow_model DYNAMIC_model WaterTableDepth_model 3600 10 10
           (1 # 100) (2 # 100) (1 # 100) soil2K 1 1 (1 # 10) cell_moist 0).
  - simpl; lia.
  - reflexivity.
  - reflexivity.
  - exact soil2K_thickness.
  - intros H; vm_compute in H; discriminate.
  - intros _. simpl. lia.
  - split; vm_compute; reflexivity.
Defined.

(** C1 fails as stated: with the table below the cut and no cut-bank zone
    ([CutBankZone = -1]) the 0.02 m of roadbed infiltration go nowhere.
    The column and the runoff gain the 0.01 m of surface infiltration, not
    the 0.03 m that were injected, far from equal within a relative
    tolerance of 1e-6; the lateral redistribution of the (zero) saturated
    flow that follows changes nothing. *)
Lemma water_balance_counterexample :
  let c1 := UnsaturatedFlow_model 3600 10 10 (1 # 100) (2 # 100) 0 soil2K
              1 (-1) (1 # 10) cell_moist 0 in
  let injected := (1 # 100) + (2 # 100) + 0 in
  WaterGained soil2K cell_moist c1 == 1 # 100
  /\ ~ Qabs (WaterGained soil2K cell_moist c1 - injected)
       <= (1 # 1000000) * Qabs injected
  /\ DistributeSatflow 3600 10 10 0 soil2K c1 = Some c1.
Proof.
  cbv zeta. split; [vm_compute; reflexivity|]. split.
  - intros H. vm_compute in H. apply H. reflexivity.
  - apply DistributeSatflow_zero_flow_eq. reflexivity.
Qed.

(** C2 on the two-layer column with the table in the deep layer: a flow of
    0.1 m. *)
Lemma injection_fills_from_the_bottom_witness :
  exists c' : Cell,
    DistributeSatflow 3600 10 10 (1 # 10) soil2K cell_low_table = Some c'
    /\ (forall i : nat, (i <= NSoilLayers soil2K)%nat ->
          (Moist cell_low_table).[i] <= (Moist c').[i]
          /\ (Moist c').[i] <= LayerPorosity soil2K i)
    /\ (forall i : nat, (i <= NSoilLayers soil2K)%nat ->
          (Moist c').[i] < LayerPorosity soil2K i ->
          (forall j : nat, (j < i)%nat -> (Moist c').[j] = (Moist cell_low_table).[j])
          /\ Runoff c' = Runoff cell_low_table)
    /\ WaterGained soil2K cell_low_table c' == 1 # 10.
Proof.
  apply (injection_fills_from_the_bottom 3600 10 10 (1 # 10) soil2K cell_low_table).
  - reflexivity.
  - reflexivity.
  - intros i Hi. destruct i as [|[|i]]; [| |simpl in Hi; lia]; reflexivity.
  - reflexivity.
  - intros i Hi. destruct i as [|[|[|i]]]; [| | |simpl in Hi; lia]; reflexivity.
  - intros i Hi. destruct i as [|[|[|i]]]; [| | |simpl in Hi; lia];
      vm_compute; discriminate.
  - reflexivity.
Defined.

(** C2 fails as stated: in that call layer 1, whose bottom is 1.5 m below
    the surface and so 0.3 m above the water table, goes from 0.25 to
    0.30. *)
Lemma injection_above_table_counterexample : ~ InjectionSparesLayersAboveTable.
Proof.
  intros H.
  specialize (H 3600%Z 10 10 (1 # 10) soil2K cell_low_table
                (DistributeSatflow_cell (1 # 10) soil2K cell_low_table) 1%nat).
  assert (E : (Moist (DistributeSatflow_cell (1 # 10) soil2K cell_low_table)).[1]
              == (Moist cell_low_table).[1]).
  { apply H.
    - reflexivity.
    - reflexivity.
    - simpl; lia.
    - vm_compute; discriminate. }
  vm_compute in E. discriminate.
Qed.


(** C4 on the two-layer column: layer 0 holds 0.3, above its field capacity
    of 0.2, and drains for an hour. *)
Lemma drained_layer_keeps_field_capacity_witness :
  (forall n : nat, (0 < n)%nat ->
     (FCap soil2K).[0]
     <= (fst (DrainLayers pow_model 3600 soil2K n
                (Moist cell_moist, Perc cell_moist))).[0])
  /\ (forall c : Cell, (Moist cell_moist, Perc cell_moist) = (Moist c, Perc c) ->
        (FCap soil2K).[0] <= (Moist (DrainStep pow_model 3600 soil2K c)).[0]).
Proof.
  apply (drained_layer_keeps_field_capacity pow_model 3600 soil2K
           (Moist cell_moist, Perc cell_moist) 0).
  - simpl; lia.
  - vm_compute; discriminate.
  - reflexivity.
  - reflexivity.
  - reflexivity.
Defined.

(** C5 on the two-layer column with every layer full: the 0.03 m that
    infiltrate pond, the table depth returned is -0.03. *)
Lemma table_depth_on_exit_witness :
  let c4 := fst (BeforePonding pow_model DYNAMIC_model WaterTableDepth_model 3600
                   10 10 (1 # 100) (2 # 100) 0 soil2K 1 1 (1 # 10) cell_full 0) in
  let c' := UnsaturatedFlow_model 3600 10 10 (1 # 100) (2 # 100) 0 soil2K 1 1
              (1 # 10) cell_full 0 in
  TableDepth c4 == - (3 # 100)
  /\ TableDepth c' = 0
  /\ Runoff c' == Runoff cell_full + Qabs (TableDepth c4).
Proof.
  destruct (table_depth_on_exit pow_model DYNAMIC_model WaterTableDepth_model 3600
              10 10 (1 # 100) (2 # 100) 0 soil2K 1 1 (1 # 10) cell_full 0)
    as (_ & Hpond & _).
  assert (Hneg : TableDepth (fst (BeforePonding pow_model DYNAMIC_model
                   WaterTableDepth_model 3600 10 10 (1 # 100) (2 # 100) 0 soil2K 1 1
                   (1 # 10) cell_full 0)) < 0) by (vm_compute; reflexivity).
  destruct (Hpond Hneg) as (H0 & _ & Hrun).
  cbv zeta. split; [vm_compute; reflexivity|]. split; [exact H0|].
  apply Hrun; reflexivity.
Defined.

Lemma soil2K_well_formed (i : nat) :
  (i < NSoilLayers soil2K)%nat ->
  0 <= (Perc cell_moist).[i] /\ 0 <= (Ks soil2K).[i] /\ 0 < (PercArea soil2K).[i]
  /\ (FCap soil2K).[i] <= (Porosity soil2K).[i]
  /\ 0 <= (FCap soil2K).[i] /\ 0 <= (RootDepth soil2K).[i] * (Adjust soil2K).[i].
Proof.
  intros Hi. destruct i as [|[|i]]; [| |simpl in Hi; lia];
    repeat split; vm_compute; discriminate.
Qed.

(** C6 on the two-layer column, an hour of drainage, layer 0. *)
Lemma Perc_never_negative_witness :
  (forall n : nat,
     0 <= (snd (DrainLayers pow_model 3600 soil2K n
                  (Moist (fst (SurfaceStep DYNAMIC_model soil2K (1 # 100) 0
                                 (RoadbedStep soil2K (2 # 100) 1 (1 # 10)
                                    cell_moist))),
                   Perc cell_moist))).[0])
  /\ 0 <= (Perc (UnsaturatedFlow_model 3600 10 10 (1 # 100) (2 # 100) 0 soil2K
                   1 1 (1 # 10) cell_moist 0)).[0].
Proof.
  destruct (Perc_never_negative pow_model DYNAMIC_model WaterTableDepth_model 3600
              10 10 (1 # 100) (2 # 100) 0 soil2K 1 1 (1 # 10) cell_moist 0
              pow_model_nonneg ltac:(lia) soil2K_well_formed 0%nat
              ltac:(simpl; lia))
    as (_ & Hloop & Hexit).
  split; [exact Hloop | exact Hexit].
Defined.

(** C6 fails as stated: with a time step of -3600 s, the entry [Perc] zero,
    [Ks] and [PercArea] positive and every porosity above the field
    capacity, layer 0 ends with a negative [Perc]. *)
Lemma Perc_negative_counterexample :
  (forall i : nat, (i < NSoilLayers soil2K)%nat ->
     0 <= (Perc cell_moist).[i] /\ 0 <= (Ks soil2K).[i]
     /\ 0 < (PercArea soil2K).[i]
     /\ (FCap soil2K).[i] <= (Porosity soil2K).[i])
  /\ PercAveraged pow_model (-3600) soil2K 0 (Moist cell_moist) (Perc cell_moist) < 0
  /\ (Perc (UnsaturatedFlow_model (-3600) 10 10 0 0 0 soil2K 1 1 (1 # 10)
              cell_moist 0)).[0] < 0.
Proof.
  split; [|split; vm_compute; reflexivity].
  intros i Hi. destruct (soil2K_well_formed i Hi) as (H1 & H2 & H3 & H4 & _).
  repeat split; assumption.
Qed.

(** C7 on the two-layer column, with the zero written [0 # 7]. *)
Lemma DistributeSatflow_zero_flow_witness :
  DistributeSatflow 3600 10 10 (0 # 7) soil2K cell_moist = Some cell_moist
  /\ forall c' : Cell,
       DistributeSatflow 3600 10 10 (0 # 7) soil2K cell_moist = Some c' ->
       Moist c' = Moist cell_moist /\ Runoff c' = Runoff cell_moist.
Proof.
  apply (DistributeSatflow_zero_flow 3600 10 10 (0 # 7) soil2K cell_moist).
  reflexivity.
Defined.

(** C10 on the two-layer column: the table at 0.3 m, the cut at 0.1 m, no
    cut-bank zone. *)
Lemma roadbed_infiltration_dropped_witness :
  RoadbedStep soil2K (2 # 100) (-1) (1 # 10) cell_moist = cell_moist
  /\ forall R' : Q,
       UnsaturatedFlow_model 3600 10 10 (1 # 100) (2 # 100) 0 soil2K 1 (-1)
         (1 # 10) cell_moist 0
       = UnsaturatedFlow_model 3600 10 10 (1 # 100) R' 0 soil2K 1 (-1)
           (1 # 10) cell_moist 0.
Proof.
  apply (roadbed_infiltration_dropped pow_model DYNAMIC_model WaterTableDepth_model
           3600 10 10 (1 # 100) (2 # 100) 0 soil2K 1 (-1) (1 # 10) cell_moist 0).
  - reflexivity.
  - lia.
Defined.

(** * Further properties of the two routines *)

(** ** The loop over the layers of [UnsaturatedFlow] *)

Section DrainLoopBounds.

Variable pow : Q -> Q -> Q.
Variable Dt : Z.
Variable s : Soil.

(** What the push-through leaves in the layer is at most what the layer
    can hold. *)
Lemma PercPushed_leaves_at_most_porosity (i : nat) (m p : list Q) :
  SoilWater s i m - PercPushed pow Dt s i m p <= MaxSoilWater s i.
Proof.
  unfold PercPushed. cbv zeta. qtest; lra.
Qed.

Lemma DrainLayer_ceiling (i : nat) (m p : list Q) :
  (i < length m)%nat ->
  0 < (RootDepth s).[i] -> 0 < (Adjust s).[i] ->
  (FCap s).[i] <= (Porosity s).[i] ->
  (fst (DrainLayer pow Dt s (m, p) i)).[i] <= (Porosity s).[i].
Proof.
  intros Hl HR HA HP. unfold DrainLayer.
  destruct ((FCap s).[i] <? m.[i]) eqn:HM;
    [apply Qltb_true in HM | apply Qltb_false in HM]; [|simpl; lra].
  cbv zeta.
  pose proof (PercPushed_leaves_at_most_porosity i m p) as HF.
  set (P := PercPushed pow Dt s i m p) in *.
  assert (E : forall m2 : list Q,
             (if (i <? NSoilLayers s - 1)%nat
              then aadd m2 (S i) (P / ((RootDepth s).[S i] * (Adjust s).[S i]))
              else m2).[i] = m2.[i]).
  { intros m2. destruct (i <? NSoilLayers s - 1)%nat; [|reflexivity].
    apply aget_aadd_ne. lia. }
  simpl fst. rewrite E, aget_aadd_eq by exact Hl.
  assert (HT : 0 < (RootDepth s).[i] * (Adjust s).[i]) by nra.
  assert (Hq : P / ((RootDepth s).[i] * (Adjust s).[i])
               * ((RootDepth s).[i] * (Adjust s).[i]) == P)
    by (field; lra).
  set (q := P / ((RootDepth s).[i] * (Adjust s).[i])) in *.
  unfold MaxSoilWater, SoilWater in HF.
  nra.
Qed.

(** X1. When the loop over the layers has passed root layer [i], that
    layer holds at most its porosity, whatever it held before and whatever
    percolated into it from above: what exceeds the porosity has been
    pushed down.  This holds at every later point of the loop and after
    the drainage to the deep layer (line 200), if the porosity is at least
    the field capacity and [RootDepth[i]] and [Adjust[i]] are positive. *)
Theorem drained_layer_within_porosity (mp : list Q * list Q) (i : nat) :
  (i < NSoilLayers s)%nat ->
  (i < length (fst mp))%nat ->
  (FCap s).[i] <= (Porosity s).[i] ->
  0 < (Adjust s).[i] ->
  0 < (RootDepth s).[i] ->
  (forall n : nat, (i < n)%nat ->
     (fst (DrainLayers pow Dt s n mp)).[i] <= (Porosity s).[i])
  /\ (forall c : Cell, mp = (Moist c, Perc c) ->
        (Moist (DrainStep pow Dt s c)).[i] <= (Porosity s).[i]).
Proof.
  intros Hi Hl HP HA HR.
  assert (Hloop : forall n : nat, (i < n)%nat ->
            (fst (DrainLayers pow Dt s n mp)).[i] <= (Porosity s).[i]).
  { intros n Hn. rewrite (DrainLayers_moist_settled pow Dt s mp i n Hn), DrainLayers_S.
    destruct (length_DrainLayers pow Dt s i mp) as [L _].
    destruct (DrainLayers pow Dt s i mp) as [m p]. simpl in L.
    apply DrainLayer_ceiling; try assumption. lia. }
  split; [exact Hloop|].
  intros c ->. unfold DrainStep.
  specialize (Hloop (NSoilLayers s) Hi).
  destruct (DrainLayers pow Dt s (NSoilLayers s) (Moist c, Perc c)) as [m p].
  simpl in *. rewrite aget_aadd_ne by lia. exact Hloop.
Qed.

(** A layer at or below field capacity is left alone and its [Perc] is set
    to zero. *)
Lemma DrainLayer_idle (i : nat) (m p : list Q) :
  m.[i] <= (FCap s).[i] ->
  fst (DrainLayer pow Dt s (m, p) i) = m
  /\ (snd (DrainLayer pow Dt s (m, p) i)).[i] == 0.
Proof.
  intros HM. unfold DrainLayer. apply Qltb_false in HM. rewrite HM. simpl.
  split; [reflexivity|].
  destruct (Nat.lt_ge_cases i (length p)) as [Hl|Hl].
  - rewrite aget_aset_eq by exact Hl. unfold Qdiv. ring.
  - rewrite aset_outside by exact Hl. rewrite aget_outside by exact Hl. reflexivity.
Qed.

Lemma DrainLayers_idle (m0 p0 : list Q) (n : nat) :
  (forall i : nat, (i < n)%nat -> m0.[i] <= (FCap s).[i]) ->
  fst (DrainLayers pow Dt s n (m0, p0)) = m0
  /\ forall i : nat, (i < n)%nat -> (snd (DrainLayers pow Dt s n (m0, p0))).[i] == 0.
Proof.
  induction n as [|n IH]; intros HM; [split; [reflexivity | intros; lia]|].
  destruct (IH ltac:(intros; apply HM; lia)) as [Em Ep].
  rewrite DrainLayers_S.
  destruct (DrainLayers pow Dt s n (m0, p0)) as [m p] eqn:E. simpl in Em, Ep.
  subst m. destruct (DrainLayer_idle n m0 p (HM n ltac:(lia))) as [Em' Ep'].
  split; [exact Em'|].
  intros i Hi. destruct (Nat.eq_dec i n) as [->|Hne]; [exact Ep'|].
  rewrite (DrainLayer_perc_frame pow Dt s (m0, p) n i) by exact Hne.
  apply Ep. lia.
Qed.

(** X2. No layer above field capacity, no flow: if on entry to the loop
    every root layer is at or below its field capacity, the loop and the
    drainage to the deep layer leave every entry of [Moist] as it was (the
    deep layer receives a drainage of zero) and set [Perc] to zero in every
    root layer.  The divisors [PercArea[i]] and
    [DeepLayerDepth * Adjust[N]] must not be zero. *)
Theorem no_drainage_at_field_capacity (c : Cell) :
  (1 <= NSoilLayers s)%nat ->
  length (Moist c) = S (NSoilLayers s) ->
  (forall i : nat, (i < NSoilLayers s)%nat -> ~ (PercArea s).[i] == 0) ->
  ~ DeepLayerDepth s * (Adjust s).[NSoilLayers s] == 0 ->
  (forall i : nat, (i < NSoilLayers s)%nat -> (Moist c).[i] <= (FCap s).[i]) ->
  let c' := DrainStep pow Dt s c in
  (forall i : nat, (i < NSoilLayers s)%nat -> (Moist c').[i] = (Moist c).[i])
  /\ (Moist c').[NSoilLayers s] == (Moist c).[NSoilLayers s]
  /\ (forall i : nat, (i < NSoilLayers s)%nat -> (Perc c').[i] == 0)
  /\ TableDepth c' = TableDepth c /\ Runoff c' = Runoff c.
Proof.
  intros HN Hl HPA HD HM. unfold DrainStep. cbv zeta.
  destruct (DrainLayers_idle (Moist c) (Perc c) (NSoilLayers s) HM) as [Em Ep].
  destruct (DrainLayers pow Dt s (NSoilLayers s) (Moist c, Perc c)) as [m p].
  simpl in Em, Ep |- *. subst m.
  split; [intros i Hi; apply aget_aadd_ne; lia|].
  split; [|split; [exact Ep | split; reflexivity]].
  rewrite aget_aadd_eq by lia.
  rewrite (Ep (NSoilLayers s - 1)%nat ltac:(lia)).
  field. split; intros H0; apply HD; rewrite H0; ring.
Qed.

End DrainLoopBounds.

(** ** Infiltration that goes to the runoff *)

Section InfiltrationToRunoff.

Variable pow : Q -> Q -> Q.
Variable DYNAMIC : Z.
Variable WaterTableDepth :
  nat -> Q -> list Q -> list Q -> list Q -> list Q -> list Q -> Q * list Q.

Lemma SameButRunoff_SurfaceStep (s : Soil) (I : Q) (o : Z) (d : Q) (c1 c2 : Cell) :
  SameButRunoff d c1 c2 ->
  SameButRunoff d (fst (SurfaceStep DYNAMIC s I o c1))
                  (fst (SurfaceStep DYNAMIC s I o c2)).
Proof.
  intros (Hm & Hp & Ht & Hr).
  destruct c1 as [m1 p1 t1 r1], c2 as [m2 p2 t2 r2]. simpl in *. subst.
  unfold SurfaceStep, SameButRunoff. simpl.
  destruct (t2 <=? 0); simpl; repeat split; lra.
Qed.

Lemma SameButRunoff_DrainStep (Dt : Z) (s : Soil) (d : Q) (c1 c2 : Cell) :
  SameButRunoff d c1 c2 ->
  SameButRunoff d (DrainStep pow Dt s c1) (DrainStep pow Dt s c2).
Proof.
  intros (Hm & Hp & Ht & Hr). unfold DrainStep. cbv zeta. rewrite Hm, Hp, Ht.
  destruct (DrainLayers pow Dt s (NSoilLayers s) (Moist c2, Perc c2)) as [m p].
  repeat split. exact Hr.
Qed.

Lemma SameButRunoff_TableStep (s : Soil) (d : Q) (c1 c2 : Cell) :
  SameButRunoff d c1 c2 ->
  SameButRunoff d (TableStep WaterTableDepth s c1) (TableStep WaterTableDepth s c2).
Proof.
  intros (Hm & Hp & Ht & Hr). unfold TableStep. rewrite Hm, Hp.
  destruct (WaterTableDepth _ _ _ _ _ _ _) as [t m].
  repeat split. exact Hr.
Qed.

Lemma SameButRunoff_PondingStep (o : Z) (d : Q) (c1 c2 : Cell) (I1 I2 : Q) :
  SameButRunoff d c1 c2 ->
  SameButRunoff d (fst (PondingStep DYNAMIC o (c1, I1)))
                  (fst (PondingStep DYNAMIC o (c2, I2))).
Proof.
  intros (Hm & Hp & Ht & Hr).
  destruct c1 as [m1 p1 t1 r1], c2 as [m2 p2 t2 r2]. simpl in *. subst.
  unfold PondingStep, SameButRunoff. simpl.
  destruct (t2 <? 0); simpl; repeat split; lra.
Qed.

(** From the surface step to the exit, a difference in the runoff stays
    what it is. *)
Lemma SameButRunoff_from_surface
    (Dt : Z) (s : Soil) (I : Q) (o : Z) (d : Q) (c1 c2 : Cell) :
  SameButRunoff d c1 c2 ->
  SameButRunoff d
    (fst (PondingStep DYNAMIC o
            (TableStep WaterTableDepth s
               (DrainStep pow Dt s (fst (SurfaceStep DYNAMIC s I o c1))),
             snd (SurfaceStep DYNAMIC s I o c1))))
    (fst (PondingStep DYNAMIC o
            (TableStep WaterTableDepth s
               (DrainStep pow Dt s (fst (SurfaceStep DYNAMIC s I o c2))),
             snd (SurfaceStep DYNAMIC s I o c2)))).
Proof.
  intros H. apply SameButRunoff_PondingStep, SameButRunoff_TableStep,
    SameButRunoff_DrainStep, SameButRunoff_SurfaceStep, H.
Qed.

Lemma UnsaturatedFlow_steps
    (Dt : Z) (DX DY Infiltration RoadbedInfiltration SatFlow : Q) (s : Soil)
    (Area : Q) (CutBankZone : Z) (BankHeight : Q) (c : Cell) (o : Z) :
  UnsaturatedFlow pow DYNAMIC WaterTableDepth Dt DX DY Infiltration
    RoadbedInfiltration SatFlow s Area CutBankZone BankHeight c o
  = let c1 := RoadbedStep s RoadbedInfiltration CutBankZone BankHeight c in
    fst (PondingStep DYNAMIC o
           (TableStep WaterTableDepth s
              (DrainStep pow Dt s (fst (SurfaceStep DYNAMIC s Infiltration o c1))),
            snd (SurfaceStep DYNAMIC s Infiltration o c1))).
Proof.
  unfold UnsaturatedFlow, UnsaturatedFlow_locals, BeforePonding. cbv zeta.
  destruct (SurfaceStep DYNAMIC s Infiltration o _); reflexivity.
Qed.

(** X3. With the water table at or above the bottom of the cut
    ([TableDepth <= BankHeight]) the roadbed infiltration goes to the
    runoff and nowhere else: the call leaves the [Moist], [Perc] and
    [TableDepth] of a call without roadbed infiltration, and a runoff that
    is larger by the roadbed infiltration. *)
Theorem roadbed_infiltration_to_runoff
    (Dt : Z) (DX DY Infiltration RoadbedInfiltration SatFlow : Q) (s : Soil)
    (Area : Q) (CutBankZone : Z) (BankHeight : Q) (c : Cell) (o : Z) :
  TableDepth c <= BankHeight ->
  SameButRunoff RoadbedInfiltration
    (UnsaturatedFlow pow DYNAMIC WaterTableDepth Dt DX DY Infiltration
       RoadbedInfiltration SatFlow s Area CutBankZone BankHeight c o)
    (UnsaturatedFlow pow DYNAMIC WaterTableDepth Dt DX DY Infiltration
       0 SatFlow s Area CutBankZone BankHeight c o).
Proof.
  intros Hb. rewrite !UnsaturatedFlow_steps. cbv zeta.
  apply SameButRunoff_from_surface.
  unfold RoadbedStep. apply Qleb_true in Hb. rewrite Hb.
  unfold SameButRunoff. simpl. repeat split. ring.
Qed.

(** X4. With the water table at or above the surface ([TableDepth <= 0])
    the surface infiltration goes to the runoff and nowhere else: the call
    leaves the [Moist], [Perc] and [TableDepth] of a call without surface
    infiltration, and a runoff that is larger by the infiltration. *)
Theorem surface_infiltration_to_runoff
    (Dt : Z) (DX DY Infiltration RoadbedInfiltration SatFlow : Q) (s : Soil)
    (Area : Q) (CutBankZone : Z) (BankHeight : Q) (c : Cell) (o : Z) :
  TableDepth c <= 0 ->
  SameButRunoff Infiltration
    (UnsaturatedFlow pow DYNAMIC WaterTableDepth Dt DX DY Infiltration
       RoadbedInfiltration SatFlow s Area CutBankZone BankHeight c o)
    (UnsaturatedFlow pow DYNAMIC WaterTableDepth Dt DX DY 0
       RoadbedInfiltration SatFlow s Area CutBankZone BankHeight c o).
Proof.
  intros H0. rewrite !UnsaturatedFlow_steps. cbv zeta.
  set (c1 := RoadbedStep s RoadbedInfiltration CutBankZone BankHeight c).
  assert (Ht : TableDepth c1 = TableDepth c).
  { unfold c1, RoadbedStep. cbv zeta.
    destruct (TableDepth c <=? BankHeight); [reflexivity|].
    destruct (CutBankZone =? _)%Z; [reflexivity|].
    destruct (CutBankZone >=? 0)%Z; reflexivity. }
  apply SameButRunoff_PondingStep, SameButRunoff_TableStep, SameButRunoff_DrainStep.
  unfold SurfaceStep. rewrite Ht. apply Qleb_true in H0. rewrite H0.
  unfold SameButRunoff. simpl. repeat split. ring.
Qed.

(** X5. [UnsaturatedFlow] never lowers the runoff when the two
    infiltrations are not negative, whatever [WaterTableDepth] returns:
    the runoff only receives the roadbed infiltration, the surface
    infiltration and the water that ponds. *)
Theorem UnsaturatedFlow_runoff_grows
    (Dt : Z) (DX DY Infiltration RoadbedInfiltration SatFlow : Q) (s : Soil)
    (Area : Q) (CutBankZone : Z) (BankHeight : Q) (c : Cell) (o : Z) :
  0 <= Infiltration -> 0 <= RoadbedInfiltration ->
  Runoff c
  <= Runoff (UnsaturatedFlow pow DYNAMIC WaterTableDepth Dt DX DY Infiltration
               RoadbedInfiltration SatFlow s Area CutBankZone BankHeight c o).
Proof.
  intros HI HR. rewrite UnsaturatedFlow_steps. cbv zeta.
  set (c1 := RoadbedStep s RoadbedInfiltration CutBankZone BankHeight c).
  assert (H1 : Runoff c <= Runoff c1).
  { unfold c1, RoadbedStep. cbv zeta.
    destruct (TableDepth c <=? BankHeight); [simpl; lra|].
    destruct (CutBankZone =? _)%Z; [simpl; lra|].
    destruct (CutBankZone >=? 0)%Z; simpl; lra. }
  assert (H2 : Runoff c1 <= Runoff (fst (SurfaceStep DYNAMIC s Infiltration o c1))).
  { unfold SurfaceStep. destruct (TableDepth c1 <=? 0); simpl; lra. }
  set (c2 := fst (SurfaceStep DYNAMIC s Infiltration o c1)) in *.
  pose proof (Runoff_DrainStep pow Dt s c2) as H3.
  pose proof (Runoff_TableStep WaterTableDepth s (DrainStep pow Dt s c2)) as H4.
  set (c4 := TableStep WaterTableDepth s (DrainStep pow Dt s c2)) in *.
  unfold PondingStep.
  destruct (TableDepth c4 <? 0) eqn:Hneg;
    [apply Qltb_true in Hneg | apply Qltb_false in Hneg]; simpl;
    rewrite H4, H3; lra.
Qed.

End InfiltrationToRunoff.

(** ** [Perc] as the flux between the layers *)

Section PercFlux.

Variable pow : Q -> Q -> Q.
Variable Dt : Z.
Variable s : Soil.

Hypothesis RootThickness_nonzero :
  forall i : nat, (i < NSoilLayers s)%nat ->
    ~ (RootDepth s).[i] * (Adjust s).[i] == 0.
Hypothesis PercArea_nonzero :
  forall i : nat, (i < NSoilLayers s)%nat -> ~ (PercArea s).[i] == 0.

Variables m0 p0 : list Q.
Hypothesis length_m0 : length m0 = S (NSoilLayers s).
Hypothesis length_p0 : length p0 = NSoilLayers s.

(** After [n] iterations: the layers above [n] have their balance, layer
    [n] has received what layer [n - 1] lost, the layers below are as on
    entry. *)
Lemma DrainLayers_flux (n : nat) :
  (n <= NSoilLayers s)%nat ->
  let mp := DrainLayers pow Dt s n (m0, p0) in
  (forall i : nat, (i < n)%nat ->
     ((fst mp).[i] - m0.[i]) * ((RootDepth s).[i] * (Adjust s).[i])
     == PercIn s (snd mp) i - PercOut s (snd mp) i)
  /\ ((n < NSoilLayers s)%nat ->
      ((fst mp).[n] - m0.[n]) * ((RootDepth s).[n] * (Adjust s).[n])
      == PercIn s (snd mp) n)
  /\ (forall j : nat, (n < j)%nat -> (fst mp).[j] = m0.[j]).
Proof.
  induction n as [|n IH]; intros Hn; cbv zeta.
  - simpl. split; [intros; lia|]. split; [intros _; ring | reflexivity].
  - destruct (IH ltac:(lia)) as (Ha & Hb & Hc). specialize (Hb ltac:(lia)).
    rewrite DrainLayers_S.
    destruct (length_DrainLayers pow Dt s n (m0, p0)) as [Lm Lp].
    destruct (DrainLayers pow Dt s n (m0, p0)) as [m p]. simpl in Ha, Hb, Hc, Lm, Lp.
    pose proof (RootThickness_nonzero n ltac:(lia)) as HT.
    pose proof (PercArea_nonzero n ltac:(lia)) as HA.
    assert (Hin : forall (i : nat) (v : Q), (i <= n)%nat ->
              PercIn s (aset p n v) i = PercIn s p i).
    { intros [|i] v Hi; [reflexivity|]. unfold PercIn, PercOut.
      rewrite aget_aset_ne by lia. reflexivity. }
    assert (Hout : forall (i : nat) (v : Q), (i < n)%nat ->
              PercOut s (aset p n v) i = PercOut s p i).
    { intros i v Hi. unfold PercOut. rewrite aget_aset_ne by lia. reflexivity. }
    assert (Hnew : forall v : Q, PercOut s (aset p n v) n == v * (PercArea s).[n]).
    { intros v. unfold PercOut. rewrite aget_aset_eq by lia. reflexivity. }
    unfold DrainLayer.
    destruct ((FCap s).[n] <? m.[n]); cbv zeta; simpl fst; simpl snd.
    + set (P := PercPushed pow Dt s n m p).
      assert (Em : forall j : nat, j <> S n ->
                (if (n <? NSoilLayers s - 1)%nat
                 then aadd (aadd m n (- (P / ((RootDepth s).[n] * (Adjust s).[n])))) (S n)
                        (P / ((RootDepth s).[S n] * (Adjust s).[S n]))
                 else aadd m n (- (P / ((RootDepth s).[n] * (Adjust s).[n])))).[j]
                = (aadd m n (- (P / ((RootDepth s).[n] * (Adjust s).[n])))).[j]).
      { intros j Hj. destruct (n <? NSoilLayers s - 1)%nat; [|reflexivity].
        apply aget_aadd_ne. lia. }
      split; [|split].
      * intros i Hi. rewrite Em by lia.
        destruct (Nat.eq_dec i n) as [->|Hne].
        -- rewrite aget_aadd_eq by lia. rewrite Hin by lia. rewrite Hnew.
           transitivity ((m.[n] - m0.[n]) * ((RootDepth s).[n] * (Adjust s).[n]) - P).
           ++ field. split; intros H0; apply HT; rewrite H0; ring.
           ++ rewrite Hb. field. exact HA.
        -- rewrite aget_aadd_ne by lia. rewrite Hin, Hout by lia. apply Ha. lia.
      * intros Hlt.
        replace (n <? NSoilLayers s - 1)%nat with true
          by (symmetry; apply Nat.ltb_lt; lia).
        rewrite aget_aadd_eq by (rewrite length_aadd; lia).
        rewrite aget_aadd_ne by lia. rewrite Hc by lia.
        simpl PercIn. rewrite Hnew.
        pose proof (RootThickness_nonzero (S n) Hlt) as HT'.
        field. repeat split; try exact HA; intros H0; apply HT'; rewrite H0; ring.
      * intros j Hj.
        destruct (n <? NSoilLayers s - 1)%nat;
          rewrite ?aget_aadd_ne by lia; apply Hc; lia.
    + split; [|split].
      * intros i Hi. destruct (Nat.eq_dec i n) as [->|Hne].
        -- rewrite Hin by lia. rewrite Hnew, Hb. field. exact HA.
        -- rewrite Hin, Hout by lia. apply Ha. lia.
      * intros Hlt. rewrite Hc by lia. simpl PercIn. rewrite Hnew.
        field. exact HA.
      * intros j Hj. apply Hc. lia.
Qed.

End PercFlux.

(** The loop does not write the deep layer. *)
Lemma DrainLayers_deep_untouched
    (pow : Q -> Q -> Q) (Dt : Z) (s : Soil) (mp : list Q * list Q) (n : nat) :
  (n <= NSoilLayers s)%nat ->
  (fst (DrainLayers pow Dt s n mp)).[NSoilLayers s] = (fst mp).[NSoilLayers s].
Proof.
  induction n as [|n IH]; intros Hn; [reflexivity|].
  rewrite DrainLayers_S, <- IH by lia.
  destruct (DrainLayers pow Dt s n mp) as [m p]. unfold DrainLayer.
  destruct ((FCap s).[n] <? m.[n]); [|reflexivity]. cbv zeta. simpl fst.
  destruct (n <? NSoilLayers s - 1)%nat eqn:E.
  - apply Nat.ltb_lt in E. rewrite !aget_aadd_ne by lia. reflexivity.
  - rewrite aget_aadd_ne by lia. reflexivity.
Qed.

(** X6. After the loop over the layers and the drainage to the deep layer,
    [Perc] is the flux between the layers: every root layer has gained
    what [Perc] records for the layer above it (nothing for the top layer)
    less what it records for the layer itself, each [Perc[i]] counted over
    [PercArea[i]], and the deep layer has gained what [Perc] records for
    the lowest root layer.  The divisors ([RootDepth * Adjust],
    [DeepLayerDepth * Adjust[N]], [PercArea]) must not be zero. *)
Theorem Perc_is_the_flux_between_layers
    (pow : Q -> Q -> Q) (Dt : Z) (s : Soil) (c : Cell) :
  (1 <= NSoilLayers s)%nat ->
  length (Moist c) = S (NSoilLayers s) ->
  length (Perc c) = NSoilLayers s ->
  (forall i : nat, (i <= NSoilLayers s)%nat -> ~ Thickness s i == 0) ->
  (forall i : nat, (i < NSoilLayers s)%nat -> ~ (PercArea s).[i] == 0) ->
  let c' := DrainStep pow Dt s c in
  (forall i : nat, (i < NSoilLayers s)%nat ->
     ((Moist c').[i] - (Moist c).[i]) * Thickness s i
     == PercIn s (Perc c') i - PercOut s (Perc c') i)
  /\ ((Moist c').[NSoilLayers s] - (Moist c).[NSoilLayers s])
     * Thickness s (NSoilLayers s)
     == PercIn s (Perc c') (NSoilLayers s).
Proof.
  intros HN Hl Hp HT HA.
  assert (HTr : forall i : nat, (i < NSoilLayers s)%nat ->
            ~ (RootDepth s).[i] * (Adjust s).[i] == 0).
  { intros i Hi. rewrite <- (Thickness_root s i) by lia. apply HT. lia. }
  destruct (DrainLayers_flux pow Dt s HTr HA (Moist c) (Perc c) Hl Hp
              (NSoilLayers s) ltac:(lia)) as (Ha & _ & Hc).
  destruct (length_DrainLayers pow Dt s (NSoilLayers s) (Moist c, Perc c)) as [Lm _].
  assert (Hdeep : (fst (DrainLayers pow Dt s (NSoilLayers s) (Moist c, Perc c)))
                    .[NSoilLayers s] = (Moist c).[NSoilLayers s]).
  { apply (DrainLayers_deep_untouched pow Dt s (Moist c, Perc c)). lia. }
  unfold DrainStep. cbv zeta.
  destruct (DrainLayers pow Dt s (NSoilLayers s) (Moist c, Perc c)) as [m p].
  simpl in Ha, Hc, Lm, Hdeep |- *.
  split.
  - intros i Hi. rewrite aget_aadd_ne by lia. rewrite Thickness_root by lia.
    apply Ha. exact Hi.
  - rewrite aget_aadd_eq by lia. rewrite Hdeep.
    pose proof (HT (NSoilLayers s) ltac:(lia)) as HTd.
    rewrite Thickness_deep in *.
    replace (PercIn s p (NSoilLayers s)) with (PercOut s p (NSoilLayers s - 1)).
    + unfold PercOut. field. split; intros H0; apply HTd; rewrite H0; ring.
    + destruct (NSoilLayers s) as [|k]; [lia|]. simpl.
      replace (k - 0)%nat with k by lia. reflexivity.
Qed.

(** ** [DistributeSatflow]: what it leaves alone *)

Lemma length_Redistribute (F : Q) (s : Soil) (c : Cell) :
  length (LMoist (Redistribute F s c)) = length (Moist c).
Proof.
  assert (HE : forall n i l,
             length (LMoist (ExtractLoop s (TableDepth c) n i l)) = length (LMoist l)).
  { induction n as [|n IH]; intros i l; [reflexivity|].
    rewrite ExtractLoop_S.
    destruct (Depth l <? TotalDepth s); [|reflexivity].
    destruct (SatFlow (ExtractLayer s (TableDepth c) i l) =? 0);
      [|rewrite IH]; apply length_aadd. }
  assert (HI : forall k l,
             length (LMoist (InjectLoop s (TableDepth c) k l)) = length (LMoist l)).
  { induction k as [|k IH]; intros l; [reflexivity|].
    rewrite InjectLoop_S.
    destruct (SatFlow (InjectLayer s (TableDepth c) k l) =? 0);
      [|rewrite IH]; apply length_aadd. }
  unfold Redistribute.
  set (l0 := mkLocals 0 F (Moist c)).
  assert (H1 : length (LMoist (Extract s (TableDepth c) l0)) = length (Moist c)).
  { unfold Extract. destruct (SatFlow l0 <? 0); [|reflexivity].
    unfold ExtractDeep. cbv zeta.
    destruct (SatFlow (ExtractLoop s (TableDepth c) (NSoilLayers s) 0 l0) <? 0);
      simpl; rewrite ?length_aadd, HE; reflexivity. }
  rewrite <- H1. set (l1 := Extract s (TableDepth c) l0).
  unfold Inject. destruct (0 <? SatFlow l1); [|reflexivity]. cbv zeta.
  destruct (0 <? SatFlow (InjectDeep s (TableDepth c) l1));
    rewrite ?HI; apply length_aadd.
Qed.

(** X7. [DistributeSatflow] never lowers the runoff, and an extraction or a
    zero flow ([SatFlow <= 0]) leaves it as it is; [Perc] and [TableDepth]
    are never changed, and [Moist] keeps its length. *)
Theorem DistributeSatflow_frame
    (Dt : Z) (DX DY F : Q) (s : Soil) (c c' : Cell) :
  DistributeSatflow Dt DX DY F s c = Some c' ->
  Runoff c <= Runoff c'
  /\ (F <= 0 -> Runoff c' = Runoff c)
  /\ Perc c' = Perc c /\ TableDepth c' = TableDepth c
  /\ length (Moist c') = length (Moist c).
Proof.
  unfold DistributeSatflow.
  destruct (0 <=? RemainingFlow F s c) eqn:Hrem; [|discriminate].
  apply Qleb_true in Hrem. intros [= <-].
  unfold DistributeSatflow_cell. simpl. fold (RemainingFlow F s c).
  split; [qtest; lra|]. split; [|split; [reflexivity|split; [reflexivity|]]].
  - intros HF.
    assert (Hle : RemainingFlow F s c <= 0).
    { destruct (Qlt_le_dec F 0) as [Hneg|Hpos].
      - apply RemainingFlow_extraction. exact Hneg.
      - unfold RemainingFlow, Redistribute.
        rewrite Extract_idle by (simpl; lra).
        rewrite Inject_idle by (simpl; lra). simpl. exact HF. }
    apply Qltb_false in Hle. rewrite Hle. reflexivity.
  - apply length_Redistribute.
Qed.

(** ** Extraction, layer by layer *)

Section ExtractionLayers.

Variable s : Soil.
Variable TD : Q.

Lemma LayerBottom_top (i : nat) :
  LayerBottom s i = LayerTop s i + (RootDepth s).[i].
Proof.
  destruct i as [|i]; [reflexivity|].
  unfold LayerTop, LayerBottom. rewrite (seq_S (S i)), fold_left_app. reflexivity.
Qed.

Lemma NextDepth_le (i : nat) (D : Q) : NextDepth s i D <= D + (RootDepth s).[i].
Proof. unfold NextDepth. qtest; lra. Qed.

Lemma ExtractLayer_other (i k : nat) (l : Locals) :
  k <> i -> (LMoist (ExtractLayer s TD i l)).[k] = (LMoist l).[k].
Proof. intros H. unfold ExtractLayer. simpl. apply aget_aadd_ne. auto. Qed.

(** The loop from layer [i] on does not write the layers above [i]. *)
Lemma ExtractLoop_above (n i k : nat) (l : Locals) :
  (k < i)%nat -> (LMoist (ExtractLoop s TD n i l)).[k] = (LMoist l).[k].
Proof.
  revert i l. induction n as [|n IH]; intros i l Hk; [reflexivity|].
  rewrite ExtractLoop_S.
  destruct (Depth l <? TotalDepth s); [|reflexivity].
  destruct (SatFlow (ExtractLayer s TD i l) =? 0);
    [|rewrite IH by lia]; apply ExtractLayer_other; lia.
Qed.

(** What a relation [P] between the old and the new moisture of layer [k]
    needs to hold across the loop: to hold when nothing is written, and to
    hold for the one step that writes layer [k]. *)
Lemma ExtractLoop_layer (P : Q -> Q -> Prop) (k : nat) :
  (forall x : Q, P x x) ->
  (forall l : Locals, SatFlow l < 0 -> Depth l <= LayerTop s k ->
     P (LMoist l).[k] (LMoist (ExtractLayer s TD k l)).[k]) ->
  forall (n i : nat) (l : Locals),
    SatFlow l < 0 -> Depth l <= LayerTop s i ->
    P (LMoist l).[k] (LMoist (ExtractLoop s TD n i l)).[k].
Proof.
  intros Hrefl Hstep. induction n as [|n IH]; intros i l Hf HD; [apply Hrefl|].
  rewrite ExtractLoop_S.
  destruct (Depth l <? TotalDepth s); [|apply Hrefl].
  assert (HD' : Depth (ExtractLayer s TD i l) <= LayerTop s (S i)).
  { simpl. rewrite LayerBottom_top. pose proof (NextDepth_le i (Depth l)). lra. }
  assert (Hf' : (SatFlow (ExtractLayer s TD i l) =? 0) = false ->
                SatFlow (ExtractLayer s TD i l) < 0).
  { intros Hz. apply Qeqb_false in Hz.
    destruct (ExtractLayer_flow s TD i l Hf) as [(_ & _ & H)|(_ & H)];
      [exact H | contradiction]. }
  destruct (Nat.eq_dec i k) as [->|Hne].
  - destruct (SatFlow (ExtractLayer s TD k l) =? 0) eqn:Hz.
    + apply Hstep; assumption.
    + rewrite ExtractLoop_above by lia. apply Hstep; assumption.
  - destruct (SatFlow (ExtractLayer s TD i l) =? 0) eqn:Hz.
    + rewrite ExtractLayer_other by auto. apply Hrefl.
    + rewrite <- (ExtractLayer_other i k l) by auto.
      apply IH; [apply Hf'; reflexivity | exact HD'].
Qed.

(** A layer whose bottom is not below the water table has nothing to
    give. *)
Lemma ExtractLayer_above_table (k : nat) (l : Locals) :
  LayerBottom s k <= TD ->
  SatFlow l < 0 -> Depth l <= LayerTop s k ->
  (LMoist (ExtractLayer s TD k l)).[k] == (LMoist l).[k].
Proof.
  intros Hb Hf HD. unfold ExtractLayer. simpl.
  pose proof (NextDepth_le k (Depth l)) as HN. rewrite LayerBottom_top in Hb.
  assert (EA : AvaWater s TD k (NextDepth s k (Depth l)) = 0).
  { unfold AvaWater.
    replace (TD <? NextDepth s k (Depth l)) with false
      by (symmetry; apply Qltb_false; lra).
    reflexivity. }
  rewrite EA. unfold ExtracWater.
  replace (0 <? - SatFlow l) with true by (symmetry; apply Qltb_true; lra).
  rewrite aget_aadd. destruct (k <? length (LMoist l))%nat; [|reflexivity].
  unfold Qdiv. ring.
Qed.

(** What the step for layer [k] takes from it. *)
Lemma ExtractLayer_bounds (k : nat) (l : Locals) :
  0 < (RootDepth s).[k] -> 0 < (Adjust s).[k] ->
  (FCap s).[k] <= (Porosity s).[k] ->
  SatFlow l < 0 ->
  (LMoist l).[k] - ((Porosity s).[k] - (FCap s).[k])
  <= (LMoist (ExtractLayer s TD k l)).[k]
  /\ (LMoist (ExtractLayer s TD k l)).[k] <= (LMoist l).[k].
Proof.
  intros HR HA HP Hf. unfold ExtractLayer. simpl.
  set (D := NextDepth s k (Depth l)).
  set (T := (RootDepth s).[k] * (Adjust s).[k]).
  assert (HT : 0 < T) by (unfold T; nra).
  assert (HAva : 0 <= AvaWater s TD k D
                 /\ AvaWater s TD k D <= ((Porosity s).[k] - (FCap s).[k]) * T).
  { unfold AvaWater, T. qtest.
    - split; [|lra]. apply Qmult_le_0_compat; [apply Qmult_le_0_compat|]; lra.
    - split; [apply Qmult_le_0_compat; [apply Qmult_le_0_compat|]; lra|].
      assert (0 <= ((Porosity s).[k] - (FCap s).[k]) * (Adjust s).[k]
                   * ((RootDepth s).[k] - (D - TD))).
      { apply Qmult_le_0_compat; [apply Qmult_le_0_compat|]; lra. }
      nra.
    - split; [lra|]. apply Qmult_le_0_compat; [lra|]. fold T. lra. }
  destruct HAva as [HA0 HA1].
  set (A := AvaWater s TD k D) in *.
  assert (HE : - A <= ExtracWater (SatFlow l) A /\ ExtracWater (SatFlow l) A <= 0).
  { unfold ExtracWater. qtest; lra. }
  destruct HE as [HE0 HE1].
  set (E := ExtracWater (SatFlow l) A) in *.
  rewrite aget_aadd. destruct (k <? length (LMoist l))%nat; [|lra].
  assert (Hq : E / T * T == E) by (field; lra).
  set (q := E / T) in *.
  split; nra.
Qed.

End ExtractionLayers.

(** The moisture an extraction leaves in root layer [k]. *)
Lemma Redistribute_extraction_layer (F : Q) (s : Soil) (c : Cell) (k : nat) :
  F < 0 -> (k < NSoilLayers s)%nat ->
  (LMoist (Redistribute F s c)).[k]
  = (LMoist (ExtractLoop s (TableDepth c) (NSoilLayers s) 0
               (mkLocals 0 F (Moist c)))).[k].
Proof.
  intros HF Hk. unfold Redistribute.
  set (l0 := mkLocals 0 F (Moist c)).
  assert (E : Extract s (TableDepth c) l0
              = ExtractDeep s (TableDepth c)
                  (ExtractLoop s (TableDepth c) (NSoilLayers s) 0 l0)).
  { unfold Extract. simpl (SatFlow l0).
    apply Qltb_true in HF. rewrite HF. reflexivity. }
  rewrite E.
  assert (H1 : SatFlow (ExtractLoop s (TableDepth c) (NSoilLayers s) 0 l0) <= 0).
  { destruct (ExtractLoop_flow s (TableDepth c) (NSoilLayers s) 0 l0 HF)
      as [[H1 _]|[H1 _]]; lra. }
  destruct (ExtractDeep_flow s (TableDepth c) _ H1) as [H2 _].
  rewrite Inject_idle by exact H2.
  unfold ExtractDeep. cbv zeta.
  destruct (SatFlow (ExtractLoop s (TableDepth c) (NSoilLayers s) 0 l0) <? 0);
    [|reflexivity].
  simpl. apply aget_aadd_ne. lia.
Qed.

Lemma DistributeSatflow_Moist (Dt : Z) (DX DY F : Q) (s : Soil) (c c' : Cell) :
  DistributeSatflow Dt DX DY F s c = Some c' ->
  Moist c' = LMoist (Redistribute F s c).
Proof.
  unfold DistributeSatflow. destruct (0 <=? RemainingFlow F s c); [|discriminate].
  intros [= <-]. reflexivity.
Qed.

(** X8. An extraction leaves the moisture of every root layer that lies
    above the water table (its bottom is not deeper than [TableDepth]) as
    it was: such a layer has no available water.  The divisor
    [RootDepth[k] * Adjust[k]] must not be zero. *)
Theorem extraction_spares_layers_above_table
    (Dt : Z) (DX DY F : Q) (s : Soil) (c c' : Cell) (k : nat) :
  F < 0 ->
  (k < NSoilLayers s)%nat ->
  ~ (RootDepth s).[k] * (Adjust s).[k] == 0 ->
  LayerBottom s k <= TableDepth c ->
  DistributeSatflow Dt DX DY F s c = Some c' ->
  (Moist c').[k] == (Moist c).[k].
Proof.
  intros HF Hk _ Hb HS.
  rewrite (DistributeSatflow_Moist Dt DX DY F s c c' HS).
  rewrite Redistribute_extraction_layer by assumption.
  apply (ExtractLoop_layer s (TableDepth c) (fun x y => y == x) k).
  - reflexivity.
  - intros l Hf HD. apply ExtractLayer_above_table; assumption.
  - exact HF.
  - simpl. lra.
Qed.

(** X9. An extraction never adds water to a root layer and takes from it
    at most the difference between its porosity and its field capacity:
    a layer that is full on entry is not drawn below its field capacity.
    The layer must have positive [RootDepth] and [Adjust] and a porosity
    that is at least its field capacity. *)
Theorem extraction_draw_is_bounded
    (Dt : Z) (DX DY F : Q) (s : Soil) (c c' : Cell) (k : nat) :
  F < 0 ->
  (k < NSoilLayers s)%nat ->
  0 < (RootDepth s).[k] -> 0 < (Adjust s).[k] ->
  (FCap s).[k] <= (Porosity s).[k] ->
  DistributeSatflow Dt DX DY F s c = Some c' ->
  (Moist c).[k] - ((Porosity s).[k] - (FCap s).[k]) <= (Moist c').[k]
  /\ (Moist c').[k] <= (Moist c).[k]
  /\ ((Porosity s).[k] <= (Moist c).[k] -> (FCap s).[k] <= (Moist c').[k]).
Proof.
  intros HF Hk HR HA HP HS.
  rewrite (DistributeSatflow_Moist Dt DX DY F s c c' HS).
  rewrite Redistribute_extraction_layer by assumption.
  pose proof (ExtractLoop_layer s (TableDepth c)
                (fun x y => x - ((Porosity s).[k] - (FCap s).[k]) <= y /\ y <= x) k
                ltac:(intros x; split; lra)
                ltac:(intros l Hf _; apply ExtractLayer_bounds; assumption)
                (NSoilLayers s) 0%nat (mkLocals 0 F (Moist c)) HF
                ltac:(simpl; lra)) as HB.
  simpl in HB.
  destruct HB as [H1 H2]. split; [exact H1|]. split; [exact H2 | intros; lra].
Qed.

(** ** Injection: what the column cannot hold *)

Lemma sum_le (f g : nat -> Q) (n : nat) :
  (forall i : nat, (i < n)%nat -> f i <= g i) ->
  fold_left (fun acc i => acc + f i) (seq 0 n) 0
  <= fold_left (fun acc i => acc + g i) (seq 0 n) 0.
Proof.
  induction n as [|n IH]; intros H; [simpl; lra|].
  rewrite !seq_S, !fold_left_app. simpl.
  pose proof (IH ltac:(intros; apply H; lia)). pose proof (H n ltac:(lia)). lra.
Qed.

Lemma sum_eq (f g : nat -> Q) (n : nat) :
  (forall i : nat, (i < n)%nat -> f i == g i) ->
  fold_left (fun acc i => acc + f i) (seq 0 n) 0
  == fold_left (fun acc i => acc + g i) (seq 0 n) 0.
Proof.
  induction n as [|n IH]; intros H; [reflexivity|].
  rewrite !seq_S, !fold_left_app. simpl.
  rewrite (IH ltac:(intros; apply H; lia)), (H n ltac:(lia)). reflexivity.
Qed.

Section InjectionOverflow.

Variable s : Soil.

Hypothesis RootDepth_pos :
  forall i : nat, (i < NSoilLayers s)%nat -> 0 < (RootDepth s).[i].
Hypothesis DeepLayerDepth_pos : 0 < DeepLayerDepth s.
Hypothesis Adjust_pos :
  forall i : nat, (i <= NSoilLayers s)%nat -> 0 < (Adjust s).[i].

Lemma Thickness_pos (i : nat) : (i <= NSoilLayers s)%nat -> 0 < Thickness s i.
Proof.
  intros Hi. unfold Thickness. pose proof (Adjust_pos i Hi) as HA.
  destruct (i =? NSoilLayers s)%nat eqn:E; [nra|].
  apply Nat.eqb_neq in E. pose proof (RootDepth_pos i ltac:(lia)). nra.
Qed.

(** The locals at the end of an injection into a column in which no layer
    is above its porosity. *)
Lemma Redistribute_injection (F : Q) (c : Cell) :
  0 < F ->
  length (Moist c) = S (NSoilLayers s) ->
  (forall i : nat, (i <= NSoilLayers s)%nat -> (Moist c).[i] <= LayerPorosity s i) ->
  let l := Redistribute F s c in
  0 <= SatFlow l
  /\ (forall i : nat, (i <= NSoilLayers s)%nat ->
        (Moist c).[i] <= (LMoist l).[i] /\ (LMoist l).[i] <= LayerPorosity s i)
  /\ (forall i : nat, (i <= NSoilLayers s)%nat ->
        (LMoist l).[i] < LayerPorosity s i -> SatFlow l == 0)
  /\ TotalMoisture s (LMoist l) + SatFlow l == TotalMoisture s (Moist c) + F.
Proof.
  intros HF Hl HM. cbv zeta.
  set (TD := TableDepth c). set (l0 := mkLocals 0 F (Moist c)).
  assert (HT : forall i : nat, (i <= NSoilLayers s)%nat -> ~ Thickness s i == 0).
  { intros i Hi. pose proof (Thickness_pos i Hi). lra. }
  assert (HB : Balanced s l0 (Redistribute F s c)).
  { unfold Redistribute. fold TD l0.
    pose proof (Extract_balanced s HT TD l0 Hl) as H1.
    apply (Balanced_trans _ _ _ _ H1). apply Inject_balanced; [exact HT|].
    destruct H1 as [H1 _]. rewrite H1. exact Hl. }
  destruct HB as [_ HB]. simpl in HB.
  split; [|split; [|split; [|exact HB]]]; clear HB;
    unfold Redistribute; fold TD l0;
    rewrite Extract_idle by (simpl; lra);
    unfold Inject; simpl (SatFlow l0);
    replace (0 <? F) with true by (symmetry; apply Qltb_true; exact HF);
    cbv zeta;
    destruct (InjectDeep_filled s TD DeepLayerDepth_pos Adjust_pos l0 Hl HF
                (HM (NSoilLayers s) ltac:(lia)))
      as (L1 & F1 & B1 & B2 & N1 & Z1);
    set (l1 := InjectDeep s TD l0) in *; simpl (LMoist l0) in *;
    (assert (HM1 : forall j : nat, (j < NSoilLayers s)%nat ->
                (LMoist l1).[j] <= LayerPorosity s j)
       by (intros j Hj; rewrite F1 by lia; apply HM; lia));
    (destruct (0 <? SatFlow l1) eqn:Hpos;
      [apply Qltb_true in Hpos;
       destruct (InjectLoop_fills s TD RootDepth_pos Adjust_pos (NSoilLayers s) l1
                   ltac:(lia) ltac:(congruence) Hpos HM1)
         as (L2 & F2 & B3 & N2 & Z2)
      | apply Qltb_false in Hpos]).
  - exact N2.
  - exact N1.
  - intros i Hi. destruct (Nat.eq_dec i (NSoilLayers s)) as [->|Hne].
    + rewrite F2 by lia. split; assumption.
    + destruct (B3 i ltac:(lia)) as [H1 H2]. rewrite F1 in H1 by exact Hne.
      split; assumption.
  - intros i Hi. destruct (Nat.eq_dec i (NSoilLayers s)) as [->|Hne].
    + split; assumption.
    + rewrite F1 by exact Hne. split; [lra | apply HM; exact Hi].
  - intros i Hi Hlt. destruct (Nat.eq_dec i (NSoilLayers s)) as [->|Hne].
    + rewrite F2 in Hlt by lia. pose proof (Z1 Hlt). lra.
    + apply (Z2 i ltac:(lia) Hlt).
  - intros i Hi Hlt. lra.
Qed.

End InjectionOverflow.

(** X10. An injection into a column with positive thicknesses and [Adjust]
    in which no layer is above its porosity returns normally and sends to
    the runoff exactly what the column cannot hold: the flow less the free
    pore volume (porosity less moisture, times thickness, summed over the
    root layers and the deep layer) when the flow is larger, and nothing
    otherwise.  When the flow is larger every layer ends at its porosity.
    The position of the water table plays no part. *)
Theorem injection_overflow_to_runoff
    (Dt : Z) (DX DY F : Q) (s : Soil) (c : Cell) :
  0 < F ->
  length (Moist c) = S (NSoilLayers s) ->
  (forall i : nat, (i < NSoilLayers s)%nat -> 0 < (RootDepth s).[i]) ->
  0 < DeepLayerDepth s ->
  (forall i : nat, (i <= NSoilLayers s)%nat -> 0 < (Adjust s).[i]) ->
  (forall i : nat, (i <= NSoilLayers s)%nat -> (Moist c).[i] <= LayerPorosity s i) ->
  exists c' : Cell,
    DistributeSatflow Dt DX DY F s c = Some c'
    /\ Runoff c'
       == Runoff c + (if FreePoreVolume s (Moist c) <? F
                      then F - FreePoreVolume s (Moist c) else 0)
    /\ (FreePoreVolume s (Moist c) < F ->
        forall i : nat, (i <= NSoilLayers s)%nat ->
          (Moist c').[i] == LayerPorosity s i).
Proof.
  intros HF Hl HR HD HA HM.
  destruct (Redistribute_injection s HR HD HA F c HF Hl HM) as (Hrem & Hb & Hz & HB).
  pose proof (Thickness_pos s HR HD HA) as HT.
  set (l := Redistribute F s c) in *.
  exists (DistributeSatflow_cell F s c).
  split.
  { unfold DistributeSatflow, RemainingFlow. fold l.
    apply Qleb_true in Hrem. rewrite Hrem. reflexivity. }
  unfold DistributeSatflow_cell. fold l. simpl.
  assert (Hle : TotalMoisture s (LMoist l) <= PoreVolume s).
  { unfold TotalMoisture, MoistureAbove, PoreVolume.
    apply (sum_le (fun i => (LMoist l).[i] * Thickness s i)
                  (fun i => LayerPorosity s i * Thickness s i)).
    intros i Hi. destruct (Hb i ltac:(lia)) as [_ H2].
    pose proof (HT i ltac:(lia)). nra. }
  destruct (0 <? SatFlow l) eqn:Hpos;
    [apply Qltb_true in Hpos | apply Qltb_false in Hpos].
  - assert (Hfull : forall i : nat, (i <= NSoilLayers s)%nat ->
              (LMoist l).[i] == LayerPorosity s i).
    { intros i Hi. destruct (Hb i Hi) as [_ H2].
      destruct (Qlt_le_dec (LMoist l).[i] (LayerPorosity s i)) as [H|H];
        [pose proof (Hz i Hi H); lra | lra]. }
    assert (Heq : TotalMoisture s (LMoist l) == PoreVolume s).
    { unfold TotalMoisture, MoistureAbove, PoreVolume.
      apply (sum_eq (fun i => (LMoist l).[i] * Thickness s i)
                    (fun i => LayerPorosity s i * Thickness s i)).
      intros i Hi. rewrite (Hfull i ltac:(lia)). reflexivity. }
    unfold FreePoreVolume.
    replace (PoreVolume s - TotalMoisture s (Moist c) <? F) with true
      by (symmetry; apply Qltb_true; lra).
    split; [lra | intros _; exact Hfull].
  - unfold FreePoreVolume.
    replace (PoreVolume s - TotalMoisture s (Moist c) <? F) with false
      by (symmetry; apply Qltb_false; lra).
    split; [lra | intros; lra].
Qed.

(** ** Injection and the water table *)

Lemma InjectLoop_table (s : Soil) (t1 t2 : Q) (k : nat) (l : Locals) :
  InjectLoop s t1 k l = InjectLoop s t2 k l.
Proof.
  revert l. induction k as [|k IH]; intros l; [reflexivity|].
  rewrite !InjectLoop_S.
  change (InjectLayer s t1 k l) with (InjectLayer s t2 k l).
  destruct (SatFlow (InjectLayer s t2 k l) =? 0); [reflexivity | apply IH].
Qed.

(** X11. An injection or a zero flow ([SatFlow >= 0]) does not depend on
    the depth of the water table: the tests of lines 317 and 329 govern
    empty statements, so two cells that differ in [TableDepth] only get
    the same [Moist] and the same runoff, and the assertion holds for
    both. *)
Theorem injection_ignores_table_depth
    (Dt : Z) (DX DY F : Q) (s : Soil) (m p : list Q) (t1 t2 r : Q) :
  0 <= F ->
  exists (m' : list Q) (r' : Q),
    DistributeSatflow Dt DX DY F s (mkCell m p t1 r) = Some (mkCell m' p t1 r')
    /\ DistributeSatflow Dt DX DY F s (mkCell m p t2 r) = Some (mkCell m' p t2 r').
Proof.
  intros HF.
  assert (E : Redistribute F s (mkCell m p t1 r) = Redistribute F s (mkCell m p t2 r)).
  { unfold Redistribute. simpl.
    rewrite !Extract_idle by (simpl; lra).
    unfold Inject. destruct (0 <? SatFlow (mkLocals 0 F m)); [|reflexivity].
    cbv zeta.
    change (InjectDeep s t1 (mkLocals 0 F m)) with (InjectDeep s t2 (mkLocals 0 F m)).
    destruct (0 <? SatFlow (InjectDeep s t2 (mkLocals 0 F m))); [|reflexivity].
    apply InjectLoop_table. }
  pose proof (RemainingFlow_injection F s (mkCell m p t2 r) HF) as Hrem.
  apply Qleb_true in Hrem.
  exists (LMoist (Redistribute F s (mkCell m p t2 r))).
  exists (if 0 <? SatFlow (Redistribute F s (mkCell m p t2 r))
          then r + SatFlow (Redistribute F s (mkCell m p t2 r)) else r).
  unfold DistributeSatflow, DistributeSatflow_cell, RemainingFlow in *.
  rewrite E, Hrem. split; reflexivity.
Qed.

(** ** Extraction from the top down *)

Section ExtractionOrder.

Variable s : Soil.
Variable TD : Q.

(** The water a step of the loop takes when the demand is not met by
    it. *)
Lemma ExtractLayer_open (i : nat) (l : Locals) :
  SatFlow l < 0 -> (i < length (LMoist l))%nat ->
  (SatFlow (ExtractLayer s TD i l) =? 0) = false ->
  SatFlow (ExtractLayer s TD i l) < 0
  /\ (LMoist (ExtractLayer s TD i l)).[i]
     == (LMoist l).[i]
        - AvaWater s TD i (NextDepth s i (Depth l))
          / ((RootDepth s).[i] * (Adjust s).[i]).
Proof.
  intros Hf Hl Hz. apply Qeqb_false in Hz.
  destruct (ExtractLayer_flow s TD i l Hf) as [(HA & _ & HN)|(_ & H)];
    [|contradiction].
  split; [exact HN|].
  cbv zeta in HA. simpl Depth in HA.
  unfold ExtractLayer. simpl. rewrite aget_aadd_eq by exact Hl.
  unfold ExtracWater. apply Qltb_true in HA. rewrite HA.
  unfold Qdiv. ring.
Qed.

Lemma length_ExtractLayer (i : nat) (l : Locals) :
  length (LMoist (ExtractLayer s TD i l)) = length (LMoist l).
Proof. apply length_aadd. Qed.

(** If the loop, started at layer [i], changes layer [k], it has taken the
    whole available water of the layers from [i] to [k - 1]. *)
Lemma ExtractLoop_order (n i : nat) (l : Locals) :
  SatFlow l < 0 ->
  (i + n <= length (LMoist l))%nat ->
  Depth l = ExtractDepthBefore s i ->
  forall k : nat,
    ~ (LMoist (ExtractLoop s TD n i l)).[k] == (LMoist l).[k] ->
    forall j : nat, (i <= j < k)%nat ->
      (LMoist (ExtractLoop s TD n i l)).[j]
      == (LMoist l).[j]
         - AvaWater s TD j (ExtractDepth s j) / ((RootDepth s).[j] * (Adjust s).[j]).
Proof.
  revert i l. induction n as [|n IH]; intros i l Hf Hl HD k Hk j Hj.
  - exfalso. apply Hk. reflexivity.
  - rewrite ExtractLoop_S in Hk |- *.
    destruct (Depth l <? TotalDepth s); [|exfalso; apply Hk; reflexivity].
    destruct (SatFlow (ExtractLayer s TD i l) =? 0) eqn:Hz.
    + exfalso. apply Hk. rewrite ExtractLayer_other by lia. reflexivity.
    + destruct (ExtractLayer_open i l Hf ltac:(lia) Hz) as [Hf' Hi].
      assert (HD' : Depth (ExtractLayer s TD i l) = ExtractDepthBefore s (S i)).
      { simpl. rewrite HD. destruct i; reflexivity. }
      assert (ED : NextDepth s i (Depth l) = ExtractDepth s i).
      { rewrite HD. destruct i; reflexivity. }
      destruct (Nat.eq_dec j i) as [->|Hne].
      * rewrite ExtractLoop_above by lia. rewrite Hi, ED. reflexivity.
      * rewrite <- (ExtractLayer_other s TD i j l) by lia.
        apply (IH (S i) (ExtractLayer s TD i l) Hf'
                 ltac:(rewrite length_ExtractLayer; lia) HD' k); [|lia].
        rewrite (ExtractLayer_other s TD i k l) by lia. exact Hk.
Qed.

(** The loop from layer [i] on, over [n] layers, writes the layers [i] to
    [i + n - 1] only. *)
Lemma ExtractLoop_below (n i k : nat) (l : Locals) :
  (i + n <= k)%nat -> (LMoist (ExtractLoop s TD n i l)).[k] = (LMoist l).[k].
Proof.
  revert i l. induction n as [|n IH]; intros i l Hk; [reflexivity|].
  rewrite ExtractLoop_S.
  destruct (Depth l <? TotalDepth s); [|reflexivity].
  destruct (SatFlow (ExtractLayer s TD i l) =? 0);
    [|rewrite IH by lia]; apply ExtractLayer_other; lia.
Qed.

(** What the step for the deep layer takes from it. *)
Lemma ExtractDeep_bounds (l : Locals) :
  (NSoilLayers s < length (LMoist l))%nat ->
  0 < DeepLayerDepth s -> 0 < (Adjust s).[NSoilLayers s] ->
  LayerFCap s (NSoilLayers s) <= LayerPorosity s (NSoilLayers s) ->
  (LMoist l).[NSoilLayers s]
  - (LayerPorosity s (NSoilLayers s) - LayerFCap s (NSoilLayers s))
  <= (LMoist (ExtractDeep s TD l)).[NSoilLayers s]
  /\ (TD <= TotalDepth s ->
      (LMoist (ExtractDeep s TD l)).[NSoilLayers s] <= (LMoist l).[NSoilLayers s]).
Proof.
  intros Hl HD HA HP.
  unfold LayerFCap, LayerPorosity in *. rewrite Nat.eqb_refl in *.
  unfold ExtractDeep. cbv zeta.
  destruct (SatFlow l <? 0) eqn:Hf;
    [apply Qltb_true in Hf | split; intros; lra].
  simpl. rewrite aget_aadd_eq by exact Hl.
  set (N := NSoilLayers s) in *.
  set (T := DeepLayerDepth s * (Adjust s).[N]).
  assert (HT : 0 < T) by (unfold T; nra).
  set (A := DeepAvaWater s TD (Depth l)).
  assert (HA1 : A <= ((Porosity s).[N - 1] - (FCap s).[N - 1]) * T
                /\ (TD <= TotalDepth s -> 0 <= A)).
  { unfold A, DeepAvaWater, T. cbv zeta. fold N. qtest.
    - split; [lra|]. intros _.
      apply Qmult_le_0_compat; [apply Qmult_le_0_compat|]; lra.
    - split.
      + assert (0 <= ((Porosity s).[N - 1] - (FCap s).[N - 1]) * (Adjust s).[N]
                     * (DeepLayerDepth s - (TotalDepth s - TD))).
        { apply Qmult_le_0_compat; [apply Qmult_le_0_compat|]; lra. }
        nra.
      + intros Ht. apply Qmult_le_0_compat; [apply Qmult_le_0_compat|]; lra.
    - split; [|intros; lra]. apply Qmult_le_0_compat; [lra|]. fold T. lra. }
  destruct HA1 as [HA1 HA0].
  assert (HE : - A <= ExtracWater (SatFlow l) A
               /\ (0 <= A -> ExtracWater (SatFlow l) A <= 0)).
  { unfold ExtracWater. qtest; split; intros; lra. }
  destruct HE as [HE0 HE1].
  set (E := ExtracWater (SatFlow l) A) in *.
  assert (Hq : E / T * T == E) by (field; lra).
  set (q := E / T) in *.
  split; [nra|]. intros Ht. specialize (HE1 (HA0 Ht)). nra.
Qed.

End ExtractionOrder.

(** X12. An extraction works from the top down: if it changes the
    moisture of root layer [k], it has taken from every layer above it
    the whole available water of that layer, [AvaWater] at the depth the
    loop had reached, over [RootDepth * Adjust].  The divisor
    [RootDepth[i] * Adjust[i]] of line 287 must not be zero in the layers
    down to [k]. *)
Theorem extraction_from_the_top_down
    (Dt : Z) (DX DY F : Q) (s : Soil) (c c' : Cell) (k : nat) :
  F < 0 ->
  (k < NSoilLayers s)%nat ->
  length (Moist c) = S (NSoilLayers s) ->
  (forall i : nat, (i <= k)%nat -> ~ (RootDepth s).[i] * (Adjust s).[i] == 0) ->
  DistributeSatflow Dt DX DY F s c = Some c' ->
  ~ (Moist c').[k] == (Moist c).[k] ->
  forall j : nat, (j < k)%nat ->
    (Moist c').[j]
    == (Moist c).[j]
       - AvaWater s (TableDepth c) j (ExtractDepth s j)
         / ((RootDepth s).[j] * (Adjust s).[j]).
Proof.
  intros HF Hk Hl _ HS Hch j Hj.
  rewrite (DistributeSatflow_Moist Dt DX DY F s c c' HS) in *.
  rewrite Redistribute_extraction_layer in * by (auto; lia).
  apply (ExtractLoop_order s (TableDepth c) (NSoilLayers s) 0
           (mkLocals 0 F (Moist c)) HF ltac:(simpl; lia) eq_refl k Hch j).
  lia.
Qed.

(** X13. An extraction takes from the deep layer at most the difference
    between the porosity and the field capacity it uses for it (those of
    the lowest root layer), and with the water table inside the column it
    never adds water to it.  [DeepLayerDepth] and [Adjust[N]] must be
    positive and that porosity at least that field capacity. *)
Theorem extraction_deep_draw_is_bounded
    (Dt : Z) (DX DY F : Q) (s : Soil) (c c' : Cell) :
  F < 0 ->
  length (Moist c) = S (NSoilLayers s) ->
  0 < DeepLayerDepth s -> 0 < (Adjust s).[NSoilLayers s] ->
  LayerFCap s (NSoilLayers s) <= LayerPorosity s (NSoilLayers s) ->
  DistributeSatflow Dt DX DY F s c = Some c' ->
  (Moist c).[NSoilLayers s]
  - (LayerPorosity s (NSoilLayers s) - LayerFCap s (NSoilLayers s))
  <= (Moist c').[NSoilLayers s]
  /\ (TableDepth c <= TotalDepth s ->
      (Moist c').[NSoilLayers s] <= (Moist c).[NSoilLayers s]).
Proof.
  intros HF Hl HD HA HP HS.
  rewrite (DistributeSatflow_Moist Dt DX DY F s c c' HS).
  unfold Redistribute.
  set (l0 := mkLocals 0 F (Moist c)).
  assert (E : Extract s (TableDepth c) l0
              = ExtractDeep s (TableDepth c)
                  (ExtractLoop s (TableDepth c) (NSoilLayers s) 0 l0)).
  { unfold Extract. simpl (SatFlow l0).
    apply Qltb_true in HF. rewrite HF. reflexivity. }
  rewrite E.
  assert (H1 : SatFlow (ExtractLoop s (TableDepth c) (NSoilLayers s) 0 l0) <= 0).
  { destruct (ExtractLoop_flow s (TableDepth c) (NSoilLayers s) 0 l0 HF)
      as [[H1 _]|[H1 _]]; lra. }
  destruct (ExtractDeep_flow s (TableDepth c) _ H1) as [H2 _].
  rewrite Inject_idle by exact H2.
  set (l1 := ExtractLoop s (TableDepth c) (NSoilLayers s) 0 l0).
  assert (L1 : length (LMoist l1) = S (NSoilLayers s)).
  { unfold l1. clear -Hl.
    assert (HE : forall n i l,
               length (LMoist (ExtractLoop s (TableDepth c) n i l)) = length (LMoist l)).
    { induction n as [|n IH]; intros i l; [reflexivity|].
      rewrite ExtractLoop_S.
      destruct (Depth l <? TotalDepth s); [|reflexivity].
      destruct (SatFlow (ExtractLayer s (TableDepth c) i l) =? 0);
        [|rewrite IH]; apply length_aadd. }
    rewrite HE. exact Hl. }
  assert (M1 : (LMoist l1).[NSoilLayers s] = (Moist c).[NSoilLayers s]).
  { unfold l1. rewrite ExtractLoop_below by lia. reflexivity. }
  rewrite <- M1.
  apply ExtractDeep_bounds; try assumption. lia.
Qed.

(** ** The further properties on the example columns *)

(** X1: layer 0 enters the loop above its porosity of 0.45. *)
Lemma drained_layer_within_porosity_witness :
  (forall n : nat, (0 < n)%nat ->
     (fst (DrainLayers pow_model 3600 soil2K n
             ([50 # 100; 30 # 100; 30 # 100], [0; 0]))).[0]
     <= (Porosity soil2K).[0])
  /\ (forall c : Cell,
        ([50 # 100; 30 # 100; 30 # 100], [0; 0]) = (Moist c, Perc c) ->
        (Moist (DrainStep pow_model 3600 soil2K c)).[0] <= (Porosity soil2K).[0]).
Proof.
  apply (drained_layer_within_porosity pow_model 3600 soil2K
           ([50 # 100; 30 # 100; 30 # 100], [0; 0]) 0).
  - simpl; lia.
  - simpl; lia.
  - vm_compute; discriminate.
  - reflexivity.
  - reflexivity.
Defined.

Lemma soil2K_PercArea (i : nat) :
  (i < NSoilLayers soil2K)%nat -> ~ (PercArea soil2K).[i] == 0.
Proof.
  intros Hi. destruct i as [|[|i]]; [| |simpl in Hi; lia];
    intros H; vm_compute in H; discriminate.
Qed.

(** X2: the root layers at field capacity. *)
Lemma no_drainage_at_field_capacity_witness :
  let c' := DrainStep pow_model 3600 soil2K cell_low_table in
  (forall i : nat, (i < NSoilLayers soil2K)%nat ->
     (Moist c').[i] = (Moist cell_low_table).[i])
  /\ (Moist c').[NSoilLayers soil2K] == (Moist cell_low_table).[NSoilLayers soil2K]
  /\ (forall i : nat, (i < NSoilLayers soil2K)%nat -> (Perc c').[i] == 0)
  /\ TableDepth c' = TableDepth cell_low_table
  /\ Runoff c' = Runoff cell_low_table.
Proof.
  apply (no_drainage_at_field_capacity pow_model 3600 soil2K cell_low_table).
  - simpl; lia.
  - reflexivity.
  - exact soil2K_PercArea.
  - intros H; vm_compute in H; discriminate.
  - intros i Hi. destruct i as [|[|i]]; [| |simpl in Hi; lia];
      vm_compute; discriminate.
Defined.

(** X3: the table at 0.3 m, the bottom of the cut at 0.5 m. *)
Lemma roadbed_infiltration_to_runoff_witness :
  SameButRunoff (2 # 100)
    (UnsaturatedFlow_model 3600 10 10 (1 # 100) (2 # 100) 0 soil2K 1 1 (1 # 2)
       cell_moist 0)
    (UnsaturatedFlow_model 3600 10 10 (1 # 100) 0 0 soil2K 1 1 (1 # 2)
       cell_moist 0).
Proof.
  apply (roadbed_infiltration_to_runoff pow_model DYNAMIC_model
           WaterTableDepth_model 3600 10 10 (1 # 100) (2 # 100) 0 soil2K 1 1
           (1 # 2) cell_moist 0).
  vm_compute; discriminate.
Defined.

(** X4: every layer full and the table at the surface. *)
Lemma surface_infiltration_to_runoff_witness :
  SameButRunoff (1 # 100)
    (UnsaturatedFlow_model 3600 10 10 (1 # 100) (2 # 100) 0 soil2K 1 1 (1 # 2)
       (mkCell [45 # 100; 40 # 100; 40 # 100] [0; 0] 0 0) 0)
    (UnsaturatedFlow_model 3600 10 10 0 (2 # 100) 0 soil2K 1 1 (1 # 2)
       (mkCell [45 # 100; 40 # 100; 40 # 100] [0; 0] 0 0) 0).
Proof.
  apply (surface_infiltration_to_runoff pow_model DYNAMIC_model
           WaterTableDepth_model 3600 10 10 (1 # 100) (2 # 100) 0 soil2K 1 1
           (1 # 2) (mkCell [45 # 100; 40 # 100; 40 # 100] [0; 0] 0 0) 0).
  vm_compute; discriminate.
Defined.

(** X5: every layer full, the infiltration ponds. *)
Lemma UnsaturatedFlow_runoff_grows_witness :
  Runoff cell_full
  <= Runoff (UnsaturatedFlow_model 3600 10 10 (1 # 100) (2 # 100) 0 soil2K 1 1
               (1 # 10) cell_full 0).
Proof.
  apply (UnsaturatedFlow_runoff_grows pow_model DYNAMIC_model WaterTableDepth_model
           3600 10 10 (1 # 100) (2 # 100) 0 soil2K 1 1 (1 # 10) cell_full 0);
    vm_compute; discriminate.
Defined.

(** X6: an hour of drainage of the two layers at 0.3. *)
Lemma Perc_is_the_flux_between_layers_witness :
  let c' := DrainStep pow_model 3600 soil2K cell_moist in
  (forall i : nat, (i < NSoilLayers soil2K)%nat ->
     ((Moist c').[i] - (Moist cell_moist).[i]) * Thickness soil2K i
     == PercIn soil2K (Perc c') i - PercOut soil2K (Perc c') i)
  /\ ((Moist c').[NSoilLayers soil2K] - (Moist cell_moist).[NSoilLayers soil2K])
     * Thickness soil2K (NSoilLayers soil2K)
     == PercIn soil2K (Perc c') (NSoilLayers soil2K).
Proof.
  apply (Perc_is_the_flux_between_layers pow_model 3600 soil2K cell_moist).
  - simpl; lia.
  - reflexivity.
  - reflexivity.
  - exact soil2K_thickness.
  - exact soil2K_PercArea.
Defined.

(** X7: an injection of 0.5 m, more than the column can hold. *)
Lemma DistributeSatflow_frame_witness :
  let c' := DistributeSatflow_cell (1 # 2) soil2K cell_low_table in
  Runoff cell_low_table <= Runoff c'
  /\ ((1 # 2) <= 0 -> Runoff c' = Runoff cell_low_table)
  /\ Perc c' = Perc cell_low_table /\ TableDepth c' = TableDepth cell_low_table
  /\ length (Moist c') = length (Moist cell_low_table).
Proof.
  apply (DistributeSatflow_frame 3600 10 10 (1 # 2) soil2K cell_low_table).
  reflexivity.
Defined.

(** X8: the table at 1.8 m, below the two root layers; the deep layer
    meets a demand of 0.01 m. *)
Lemma extraction_spares_layers_above_table_witness :
  (Moist (DistributeSatflow_cell (- (1 # 100)) soil2K cell_low_table)).[1]
  == (Moist cell_low_table).[1].
Proof.
  apply (extraction_spares_layers_above_table 3600 10 10 (- (1 # 100)) soil2K
           cell_low_table).
  - reflexivity.
  - simpl; lia.
  - intros H; vm_compute in H; discriminate.
  - vm_compute; discriminate.
  - reflexivity.
Defined.

(** X9: the table at 0.3 m, a demand of 0.02 m, layer 0. *)
Lemma extraction_draw_is_bounded_witness :
  let c' := DistributeSatflow_cell (- (2 # 100)) soil2K cell_moist in
  (Moist cell_moist).[0] - ((Porosity soil2K).[0] - (FCap soil2K).[0])
  <= (Moist c').[0]
  /\ (Moist c').[0] <= (Moist cell_moist).[0]
  /\ ((Porosity soil2K).[0] <= (Moist cell_moist).[0] ->
      (FCap soil2K).[0] <= (Moist c').[0]).
Proof.
  apply (extraction_draw_is_bounded 3600 10 10 (- (2 # 100)) soil2K cell_moist).
  - reflexivity.
  - simpl; lia.
  - reflexivity.
  - reflexivity.
  - vm_compute; discriminate.
  - reflexivity.
Defined.

(** X10: the column has room for 0.05 + 0.15 + 0.125 = 0.325 m, the flow is
    0.5 m. *)
Lemma injection_overflow_to_runoff_witness :
  FreePoreVolume soil2K (Moist cell_low_table) == 325 # 1000
  /\ exists c' : Cell,
       DistributeSatflow 3600 10 10 (1 # 2) soil2K cell_low_table = Some c'
       /\ Runoff c'
          == Runoff cell_low_table
             + (if FreePoreVolume soil2K (Moist cell_low_table) <? 1 # 2
                then (1 # 2) - FreePoreVolume soil2K (Moist cell_low_table) else 0)
       /\ (FreePoreVolume soil2K (Moist cell_low_table) < 1 # 2 ->
           forall i : nat, (i <= NSoilLayers soil2K)%nat ->
             (Moist c').[i] == LayerPorosity soil2K i).
Proof.
  split; [reflexivity|].
  apply (injection_overflow_to_runoff 3600 10 10 (1 # 2) soil2K cell_low_table).
  - reflexivity.
  - reflexivity.
  - intros i Hi. destruct i as [|[|i]]; [| |simpl in Hi; lia]; reflexivity.
  - reflexivity.
  - intros i Hi. destruct i as [|[|[|i]]]; [| | |simpl in Hi; lia]; reflexivity.
  - intros i Hi. destruct i as [|[|[|i]]]; [| | |simpl in Hi; lia];
      vm_compute; discriminate.
Defined.

(** X11: the same column with the table at 0.3 m and at 1.8 m. *)
Lemma injection_ignores_table_depth_witness :
  exists (m' : list Q) (r' : Q),
    DistributeSatflow 3600 10 10 (1 # 10) soil2K
      (mkCell [20 # 100; 25 # 100; 30 # 100] [0; 0] (3 # 10) 0)
    = Some (mkCell m' [0; 0] (3 # 10) r')
    /\ DistributeSatflow 3600 10 10 (1 # 10) soil2K
         (mkCell [20 # 100; 25 # 100; 30 # 100] [0; 0] (18 # 10) 0)
       = Some (mkCell m' [0; 0] (18 # 10) r').
Proof.
  apply (injection_ignores_table_depth 3600 10 10 (1 # 10) soil2K
           [20 # 100; 25 # 100; 30 # 100] [0; 0] (3 # 10) (18 # 10) 0).
  vm_compute; discriminate.
Defined.

(** X12: the table at 0.3 m, a demand of 0.1 m: layer 0 gives its 0.05 m,
    layer 1 the rest. *)
Lemma extraction_from_the_top_down_witness :
  (Moist (DistributeSatflow_cell (- (1 # 10)) soil2K cell_moist)).[0]
  == (Moist cell_moist).[0]
     - AvaWater soil2K (TableDepth cell_moist) 0 (ExtractDepth soil2K 0)
       / ((RootDepth soil2K).[0] * (Adjust soil2K).[0]).
Proof.
  apply (extraction_from_the_top_down 3600 10 10 (- (1 # 10)) soil2K cell_moist
           (DistributeSatflow_cell (- (1 # 10)) soil2K cell_moist) 1).
  - reflexivity.
  - simpl; lia.
  - reflexivity.
  - intros i Hi H. destruct i as [|[|i]]; [vm_compute in H; discriminate ..| lia].
  - reflexivity.
  - intros H; vm_compute in H; discriminate.
  - lia.
Defined.

(** X13: the table at 0.3 m, a demand of 0.25 m: the root layers give
    0.2 m, the deep layer 0.05 m of its 0.075 m. *)
Lemma extraction_deep_draw_is_bounded_witness :
  let c' := DistributeSatflow_cell (- (25 # 100)) soil2K cell_moist in
  (Moist cell_moist).[NSoilLayers soil2K]
  - (LayerPorosity soil2K (NSoilLayers soil2K) - LayerFCap soil2K (NSoilLayers soil2K))
  <= (Moist c').[NSoilLayers soil2K]
  /\ (TableDepth cell_moist <= TotalDepth soil2K ->
      (Moist c').[NSoilLayers soil2K] <= (Moist cell_moist).[NSoilLayers soil2K]).
Proof.
  apply (extraction_deep_draw_is_bounded 3600 10 10 (- (25 # 100)) soil2K cell_moist).
  - reflexivity.
  - reflexivity.
  - reflexivity.
  - reflexivity.
  - vm_compute; discriminate.
  - reflexivity.
Defined.

(** ** The assertion in single precision *)

(** The single-precision routine returns exactly when the flow that is left
    compares [>= 0.0]: the assertion fails when it is negative, and also
    when it is not a number. *)
Lemma Float32_assertion_fails (F : spec_float) (s : Float32.Soil) (c : Float32.Cell) :
  Float32.DistributeSatflow F s c = None
  <-> SFltb (Float32.RemainingFlow F s c) Float32.zero = true
      \/ Float32.RemainingFlow F s c = S754_nan.
Proof.
  unfold Float32.DistributeSatflow, Float32.RemainingFlow.
  destruct (Float32.SatFlow (Float32.Redistribute F s c)) as [sg|sg| |sg m e];
    try destruct sg; cbn; split;
    try discriminate; try reflexivity; auto;
    intros [H|H]; discriminate.
Qed.

